(** * Focus Pomodoro: a shallow embedding of the session engine and the
    statistics store of [src/app/page.tsx] and [src/app/category/page.tsx].

    The React component [Home] is modelled as a record of its state hooks
    plus the two [localStorage] keys that [onFinish] reads and rewrites.
    Every event handler is a function [Home -> Home]; after a handler the
    effect [useEffect(() => setRemainingSeconds(durations[mode] * 60),
    [durations, mode])] is replayed by [sync_remaining].

    The interval started by the effect on [[isRunning]] calls the
    [onFinish] of the render in which [isRunning] became [true]; that
    stale closure is kept as an explicit [Closure] in the state. *)

From Stdlib Require Import ZArith Lia String Ascii Sorting.Sorted.
From stdpp Require Import gmap strings list.

Open Scope Z_scope.

(* ------------------------------------------------------------------ *)
(** ** Data model *)

(** [type TimerMode = "focus" | "short" | "long"] *)
Inductive TimerMode := Focus | Short | Long.

Definition mode_eqb (a b : TimerMode) : bool :=
  match a, b with
  | Focus, Focus | Short, Short | Long, Long => true
  | _, _ => false
  end.

(** [type Durations = { focus; short; long }] (minutes). The settings
    inputs only ever store numbers, so the engine reads them as [Z]. *)
Record Durations := mkDurations {
  focus : Z;
  short : Z;
  long : Z
}.

Definition DEFAULT_DURATIONS : Durations := mkDurations 25 5 15.

(** [durations[mode]] *)
Definition dur (d : Durations) (m : TimerMode) : Z :=
  match m with
  | Focus => focus d
  | Short => short d
  | Long => long d
  end.

(** [type FocusEvent = { ts; category; minutes }] *)
Record FocusEvent := mkFocusEvent {
  ts : Z;
  category : string;
  minutes : Z
}.

(** What [localStorage.getItem] followed by [JSON.parse] and the shape
    test of [onFinish] yields for a key: nothing stored, text that
    [JSON.parse] rejects, JSON of another shape, or a value of the
    expected shape. *)
Inductive Stored (A : Type) :=
  | SAbsent
  | SCorrupt
  | SWrongShape
  | SValue (a : A).
Arguments SAbsent {A}.
Arguments SCorrupt {A}.
Arguments SWrongShape {A}.
Arguments SValue {A} a.

(** [let map = {}; if (raw) { try { parsed = JSON.parse(raw); if (parsed
    && typeof parsed === "object") map = parsed } catch {} }] and the same
    pattern with [Array.isArray] for the event log. *)
Definition load_or {A} (dflt : A) (s : Stored A) : A :=
  match s with
  | SValue a => a
  | _ => dflt
  end.

(** The closure captured by [window.setInterval]: the values of the render
    in which the interval was created, as read by its [onFinish]. *)
Record Closure := mkClosure {
  c_mode : TimerMode;
  c_durations : Durations;
  c_completedFocusCount : Z;
  c_selectedCategory : string
}.

(** The state of [Home]. [interval] is [intervalRef.current] together with
    the closure the interval callback runs. *)
Record Home := mkHome {
  durations : Durations;
  mode : TimerMode;
  isRunning : bool;
  remainingSeconds : Z;
  completedFocusCount : Z;
  totalMinutes : Z;
  selectedCategory : string;
  categoryMinutesStore : Stored (gmap string Z);   (* "fp:category-minutes" *)
  focusEventsStore : Stored (list FocusEvent);     (* "fp:focus-events" *)
  interval : option Closure
}.

Definition set_remaining (r : Z) (s : Home) : Home :=
  mkHome (durations s) (mode s) (isRunning s) r (completedFocusCount s)
    (totalMinutes s) (selectedCategory s) (categoryMinutesStore s)
    (focusEventsStore s) (interval s).

Definition set_mode (m : TimerMode) (s : Home) : Home :=
  mkHome (durations s) m (isRunning s) (remainingSeconds s) (completedFocusCount s)
    (totalMinutes s) (selectedCategory s) (categoryMinutesStore s)
    (focusEventsStore s) (interval s).

Definition set_durations (d : Durations) (s : Home) : Home :=
  mkHome d (mode s) (isRunning s) (remainingSeconds s) (completedFocusCount s)
    (totalMinutes s) (selectedCategory s) (categoryMinutesStore s)
    (focusEventsStore s) (interval s).

(** [setIsRunning(b)] together with the interval effect on [[isRunning]]:
    turning it on creates an interval whose callback closes over the
    current render; turning it off runs the cleanup ([clearInterval]). *)
Definition set_running (b : bool) (s : Home) : Home :=
  if Bool.eqb b (isRunning s) then s else
  mkHome (durations s) (mode s) b (remainingSeconds s) (completedFocusCount s)
    (totalMinutes s) (selectedCategory s) (categoryMinutesStore s)
    (focusEventsStore s)
    (if b then Some (mkClosure (mode s) (durations s) (completedFocusCount s)
                       (selectedCategory s))
     else None).

(** [useEffect(() => setRemainingSeconds(durations[mode] * 60),
    [durations, mode])], run after a handler when [mode] or the
    [durations] object changed ([durations_set] says the handler stored a
    fresh durations object). *)
Definition sync_remaining (durations_set : bool) (before after : Home) : Home :=
  if durations_set || negb (mode_eqb (mode before) (mode after))
  then set_remaining (dur (durations after) (mode after) * 60) after
  else after.

(* ------------------------------------------------------------------ *)
(** ** Session engine *)

(** [nextMode], reading [completedFocusCount] of the render it belongs to;
    JavaScript's [%] is [Z.rem]. *)
Definition nextMode (completedFocusCount : Z) (current : TimerMode) : TimerMode :=
  match current with
  | Focus => if Z.rem (completedFocusCount + 1) 4 =? 0 then Long else Short
  | _ => Focus
  end.

(** [String.prototype.trim] on the ASCII whitespace and line terminators. *)
Definition is_js_space (c : ascii) : bool :=
  match nat_of_ascii c with
  | 9 | 10 | 11 | 12 | 13 | 32 => true
  | _ => false
  end%nat.

Fixpoint trim_start (s : string) : string :=
  match s with
  | EmptyString => EmptyString
  | String c r => if is_js_space c then trim_start r else s
  end.

Definition rev_string (s : string) : string :=
  string_of_list_ascii (rev (list_ascii_of_string s)).

Definition trim (s : string) : string :=
  rev_string (trim_start (rev_string (trim_start s))).

(** [if (events.length > 1000) events = events.slice(events.length - 1000)] *)
Definition cap_events (events : list FocusEvent) : list FocusEvent :=
  if Nat.ltb 1000 (length events) then drop (length events - 1000) events
  else events.

(** The [localStorage] part of [onFinish] for a completed focus interval:
    update ["fp:category-minutes"] and append to ["fp:focus-events"]. *)
Definition record_completion (now : Z) (label : string) (m : Z)
    (cm : Stored (gmap string Z)) (ev : Stored (list FocusEvent))
    : Stored (gmap string Z) * Stored (list FocusEvent) :=
  let map := load_or ∅ cm in
  let current := default 0 (map !! label) in
  let map' := <[label := Z.max 0 (current + m)]> map in
  let events := load_or [] ev in
  let events' := cap_events (events ++ [mkFocusEvent now label m]) in
  (SValue map', SValue events').

(** [onFinish] of closure [c], applied to the live state [s]. The counter
    updates are functional updaters ([c => c + 1]) and see the live
    values; everything else reads the closure. *)
Definition onFinish (now : Z) (c : Closure) (s : Home) : Home :=
  let s1 :=
    match c_mode c with
    | Focus =>
        let label := trim (c_selectedCategory c) in
        let '(cm', ev') := record_completion now label (focus (c_durations c))
                             (categoryMinutesStore s) (focusEventsStore s) in
        mkHome (durations s) (mode s) (isRunning s) (remainingSeconds s)
          (completedFocusCount s + 1) (totalMinutes s + focus (c_durations c))
          (selectedCategory s) cm' ev' (interval s)
    | _ => s
    end in
  let nm := nextMode (c_completedFocusCount c) (c_mode c) in
  set_remaining (dur (c_durations c) nm * 60) (set_mode nm s1).

(** The updater passed to [setRemainingSeconds] by the interval callback. *)
Definition tick_updater (prev : Z) : Z :=
  if prev <=? 1 then 0 else prev - 1.

(** One firing of the interval (once per second while it exists). On the
    last second the updater returns [0], the interval is cleared,
    [isRunning] is set to [false] and the closure's [onFinish] runs; its
    [setRemainingSeconds] is queued after the updater's [0]. *)
Definition tick (now : Z) (s : Home) : Home :=
  match interval s with
  | None => s
  | Some c =>
      let prev := remainingSeconds s in
      if prev <=? 1 then
        let s1 := set_running false (set_remaining (tick_updater prev) s) in
        sync_remaining false s (onFinish now c s1)
      else set_remaining (tick_updater prev) s
  end.

(** [handleStartPause] *)
Definition handleStartPause (s : Home) : Home :=
  set_running (negb (isRunning s)) s.

(** [handleReset] *)
Definition handleReset (s : Home) : Home :=
  set_remaining (dur (durations s) (mode s) * 60) (set_running false s).

(** [handleSkip] *)
Definition handleSkip (s : Home) : Home :=
  let s1 := set_running false s in
  let nm := nextMode (completedFocusCount s) (mode s) in
  sync_remaining false s (set_remaining (dur (durations s) nm * 60) (set_mode nm s1)).

(** [n] interval firings at time [now]. *)
Fixpoint ticks (n : nat) (now : Z) (s : Home) : Home :=
  match n with
  | O => s
  | S k => ticks k now (tick now s)
  end.

(** [true] in focus mode. *)
Definition is_focus (m : TimerMode) : bool :=
  match m with Focus => true | _ => false end.

(** A full phase: [handleReset], [handleStartPause], then one firing per
    second of the current mode's duration. *)
Definition run_interval (now : Z) (s : Home) : Home :=
  ticks (Z.to_nat (dur (durations s) (mode s) * 60)) now
    (handleStartPause (handleReset s)).

(** [k] completed rounds of a focus phase followed by its break. *)
Fixpoint focus_rounds (k : nat) (now : Z) (s : Home) : Home :=
  match k with
  | O => s
  | S j => run_interval now (run_interval now (focus_rounds j now s))
  end.

(* ------------------------------------------------------------------ *)
(** ** Settings *)

(** [setDurations(d)] from an event handler: a fresh object is stored, so
    the effect on [[durations, mode]] always runs afterwards. *)
Definition setDurations (d : Durations) (s : Home) : Home :=
  sync_remaining true s (set_durations d s).

(** [Math.max(1, Math.min(180, Number(e.target.value || 0)))] for an
    [<input type="number">], whose [value] is either [""] ([None]) or the
    text of a number. *)
Definition clamp_input (value : option Z) : Z :=
  Z.max 1 (Z.min 180 (match value with None => 0 | Some z => z end)).

Inductive DurationField := FieldFocus | FieldShort | FieldLong.

(** [{ ...durations, <field>: clamp }] *)
Definition edit_durations (d : Durations) (f : DurationField) (value : option Z) : Durations :=
  match f with
  | FieldFocus => mkDurations (clamp_input value) (short d) (long d)
  | FieldShort => mkDurations (focus d) (clamp_input value) (long d)
  | FieldLong => mkDurations (focus d) (short d) (clamp_input value)
  end.

(** The [onChange] of the three settings inputs. *)
Definition handleDurationInput (f : DurationField) (value : option Z) (s : Home) : Home :=
  setDurations (edit_durations (durations s) f value) s.

(* ------------------------------------------------------------------ *)
(** ** Loading persisted durations *)

#[local] Set Warnings "-register-all".

(** JSON values as [JSON.parse] returns them (numbers restricted to the
    integers the app writes). *)
Inductive json :=
  | JNull
  | JBool (b : bool)
  | JNum (z : Z)
  | JStr (s : string)
  | JArr (l : list json)
  | JObj (kvs : list (string * json)).

(** The text under a key, as [JSON.parse] sees it: it throws, or it
    returns a value. *)
Inductive rawtext :=
  | TUnparsable
  | TJson (j : json).

(** The durations record as a JavaScript object: the spread in the loader
    copies whatever value the stored object holds under each key. *)
Record DurationsJS := mkDurationsJS {
  jfocus : json;
  jshort : json;
  jlong : json
}.

Definition DEFAULT_DURATIONS_JS : DurationsJS :=
  mkDurationsJS (JNum (focus DEFAULT_DURATIONS)) (JNum (short DEFAULT_DURATIONS))
    (JNum (long DEFAULT_DURATIONS)).

(** Own property [k] of a parsed object; [JSON.parse] keeps the last of
    duplicated keys. *)
Definition obj_get (kvs : list (string * json)) (k : string) : option json :=
  fold_left (fun acc '(k', v) => if String.eqb k k' then Some v else acc) kvs None.

(** The mount effect of [Home]:
    [const parsed = raw ? JSON.parse(raw) : undefined;
     if (parsed && typeof parsed === "object")
       setDurations((prev) => ({ ...prev, ...parsed }))], errors ignored.
    Spreading an array only adds index keys, so it leaves the three
    fields as they were. *)
Definition load_durations (prev : DurationsJS) (item : option rawtext) : DurationsJS :=
  match item with
  | Some (TJson (JObj kvs)) =>
      mkDurationsJS (default (jfocus prev) (obj_get kvs "focus"))
        (default (jshort prev) (obj_get kvs "short"))
        (default (jlong prev) (obj_get kvs "long"))
  | _ => prev
  end.

(** The numeric view the engine reads when every field is a number. *)
Definition durations_of_js (d : DurationsJS) : option Durations :=
  match jfocus d, jshort d, jlong d with
  | JNum f, JNum sh, JNum l => Some (mkDurations f sh l)
  | _, _, _ => None
  end.



Section Counters.

(** The type of JavaScript numbers. *)
Variable num : Type.

(** [Number(s)] on a non-empty text, when it is finite; [None] when it
    is [NaN] or infinite ([Number.isFinite] fails). *)
Variable Number_finite : string -> option num.


End Counters.

Definition in_range (z : Z) : Prop := 1 <= z <= 180.

Definition durations_in_range (d : Durations) : Prop :=
  in_range (focus d) /\ in_range (short d) /\ in_range (long d).

(* ------------------------------------------------------------------ *)
(** ** Statistics store *)

(** Aggregating an event log per category, as the loops of the category
    page do: [totalsByCat.set(label, (totalsByCat.get(label) ?? 0) + minutes)]. *)
Definition replay (events : list FocusEvent) : gmap string Z :=
  foldl (fun m ev => <[category ev := default 0 (m !! category ev) + minutes ev]> m)
    ∅ events.



(* ------------------------------------------------------------------ *)
(** ** Category page: local time *)

(** A time zone with one offset change at instant [transition] (ms since
    the epoch); offsets are in ms, local wall clock = instant + offset. *)
Record Zone := mkZone {
  transition : Z;
  off_before : Z;
  off_after : Z
}.

Definition DAY : Z := 24 * 60 * 60 * 1000.

Definition offset (z : Zone) (t : Z) : Z :=
  if t <? transition z then off_before z else off_after z.

Definition local_of (z : Zone) (t : Z) : Z := t + offset z t.

(** Local wall clock to instant, as ECMAScript resolves it: the earlier
    instant of a repeated hour, the offset before the change in a skipped
    hour. *)
Definition instant_of (z : Zone) (l : Z) : Z :=
  if l - off_before z <? transition z then l - off_before z
  else if transition z <=? l - off_after z then l - off_after z
  else l - off_before z.

(** [Date.prototype.getDay]: 1970-01-01 was a Thursday. *)
Definition getDay (z : Zone) (t : Z) : Z := (local_of z t / DAY + 4) mod 7.

(** [d.setDate(d.getDate() + k)]: same local time of day, [k] days on. *)
Definition add_local_days (z : Zone) (t k : Z) : Z :=
  instant_of z (local_of z t + k * DAY).

(** [d.setHours(0, 0, 0, 0)] *)
Definition start_of_day (z : Zone) (t : Z) : Z :=
  instant_of z (local_of z t / DAY * DAY).

(** A row of [weekDays] (its ISO [key] is left out). *)
Record DayRow := mkDayRow {
  row_date : Z;
  row_total : Z;
  row_breakdown : list (string * Z)
}.

(** [const existing = dayRow.breakdown.find((b) => b.label === label);
     if (existing) existing.minutes += minutes;
     else dayRow.breakdown.push({ label, minutes })] *)
Fixpoint add_breakdown (label : string) (m : Z) (b : list (string * Z)) : list (string * Z) :=
  match b with
  | [] => [(label, m)]
  | (l, v) :: r => if String.eqb l label then (l, v + m) :: r
                   else (l, v) :: add_breakdown label m r
  end.

Definition add_to_row (label : string) (m : Z) (r : DayRow) : DayRow :=
  mkDayRow (row_date r) (row_total r + m) (add_breakdown label m (row_breakdown r)).

(** [breakdown.sort((a, b) => b.minutes - a.minutes)]: a stable sort by
    decreasing minutes. *)
Fixpoint insert_desc (x : string * Z) (l : list (string * Z)) : list (string * Z) :=
  match l with
  | [] => [x]
  | y :: r => if y.2 <? x.2 then x :: l else y :: insert_desc x r
  end.

Definition sort_desc (l : list (string * Z)) : list (string * Z) :=
  fold_left (fun acc x => insert_desc x acc) l [].

(** The [weekDays] / [weeklyTotalsByCategory] memo of [CategoryPage]. *)
Definition weekly (z : Zone) (now : Z) (events : list FocusEvent)
    : list DayRow * gmap string Z :=
  let day := getDay z now in
  let diffToMonday := (day + 6) mod 7 in
  let weekStart := start_of_day z (add_local_days z now (- diffToMonday)) in
  let days := map (fun i => mkDayRow (add_local_days z weekStart (Z.of_nat i)) 0 [])
                (seq 0 7) in
  let startMs := weekStart in
  let endMs := weekStart + 7 * DAY in
  let '(days', totals) :=
    fold_left
      (fun '(days, totals) ev =>
         if (startMs <=? ts ev) && (ts ev <? endMs) then
           let idx := Z.to_nat ((ts ev - startMs) / DAY) in
           match days !! idx with
           | None => (days, totals)
           | Some row =>
               (<[idx := add_to_row (category ev) (minutes ev) row]> days,
                <[category ev := default 0 (totals !! category ev) + minutes ev]> totals)
           end
         else (days, totals))
      events (days, ∅) in
  (map (fun r => mkDayRow (row_date r) (row_total r) (sort_desc (row_breakdown r))) days',
   totals).

(* ------------------------------------------------------------------ *)
(** ** Category page: colours *)

Definition palette : list string :=
  ["var(--chart-1)"; "var(--chart-2)"; "var(--chart-3)"; "var(--chart-4)";
   "var(--chart-5)"]%string.

(** [set.add] on an insertion-ordered [Set]. *)
Definition set_add (acc : list string) (x : string) : list string :=
  if existsb (String.eqb x) acc then acc else acc ++ [x].

(** [Array.prototype.sort] with a comparator: a stable sort. *)
Fixpoint insert_by (cmp : string -> string -> comparison) (x : string) (l : list string)
    : list string :=
  match l with
  | [] => [x]
  | y :: r => match cmp x y with
              | Lt => x :: l
              | _ => y :: insert_by cmp x r
              end
  end.

Definition sort_by (cmp : string -> string -> comparison) (l : list string) : list string :=
  fold_left (fun acc x => insert_by cmp x acc) l [].

(** The [allCategories] memo: keys of the cache, then event categories,
    without duplicates or blank labels, sorted with
    [localeCompare(b, "tr")] (passed as [localeCompare]). *)
Definition allCategories (localeCompare : string -> string -> comparison)
    (cacheKeys : list string) (events : list FocusEvent) : list string :=
  let set := fold_left set_add (cacheKeys ++ map category events) [] in
  sort_by localeCompare (List.filter (fun x => negb (String.eqb (trim x) "")) set).

(** [allCategories.forEach((label, idx) => map.set(label, palette[idx % palette.length]))] *)
Fixpoint color_map_from (i : nat) (labels : list string) (m : gmap string string)
    : gmap string string :=
  match labels with
  | [] => m
  | l :: r => color_map_from (S i) r (<[l := nth (i mod 5) palette ""%string]> m)
  end.

(** [categoryColor(label) = map.get(label) ?? palette[0]] *)
Definition categoryColor (localeCompare : string -> string -> comparison)
    (cacheKeys : list string) (events : list FocusEvent) (label : string) : string :=
  default (nth 0 palette ""%string)
    (color_map_from 0 (allCategories localeCompare cacheKeys events) ∅ !! label).

(* ------------------------------------------------------------------ *)
(** ** Clock display *)








(* ------------------------------------------------------------------ *)
(** ** Categories of the home page *)

Definition DEFAULT_CATEGORIES : list string := ["Genel"; "Çalışma"; "Yazılım"; "Okuma"]%string.

Section CategoryList.

(** [toLocaleLowerCase("tr")] *)
Variable lower : string -> string.

(** [label.trim().toLocaleLowerCase("tr")] *)
Definition cat_key (c : string) : string := lower (trim c).

(** [filter] with a [seen] set of keys: the first label of each key stays. *)
Fixpoint dedup_by_key (seen : list string) (l : list string) : list string :=
  match l with
  | [] => []
  | x :: r =>
      if existsb (String.eqb (cat_key x)) seen then dedup_by_key seen r
      else x :: dedup_by_key (cat_key x :: seen) r
  end.

(** [parsed.filter((x) => typeof x === "string")] *)
Definition only_strings (l : list json) : list string :=
  flat_map (fun j => match j with JStr s => [s] | _ => [] end) l.

(** The categories part of the mount effect of [Home]: a stored array is
    merged after the defaults; anything else leaves the list as it was. *)
Definition load_categories (prev : list string) (item : option rawtext) : list string :=
  match item with
  | Some (TJson (JArr l)) => dedup_by_key [] (DEFAULT_CATEGORIES ++ only_strings l)
  | _ => prev
  end.

(** [prev.some((c) => c.trim().toLocaleLowerCase("tr") === key)] *)
Definition has_key (cats : list string) (k : string) : bool :=
  existsb (fun c => String.eqb (cat_key c) k) cats.

(** [handleCreateCategory] *)
Definition handleCreateCategory (newLabel : string) (prev : list string) : list string :=
  let trimmed := trim newLabel in
  if String.eqb trimmed "" then prev
  else if has_key prev (lower trimmed) then prev
  else prev ++ [trimmed].

(** The effect that keeps [selectedCategory] in [categories]. *)
Definition ensure_selected (selected : string) (cats : list string) : list string :=
  if String.eqb selected "" then cats
  else if has_key cats (cat_key selected) then cats
  else cats ++ [selected].

(** [CategorySelect]'s [handleSelectChange] with [options = categories],
    [onCreateOption = handleCreateCategory] and
    [onChange = setSelectedCategory], followed by the effect on
    [[selectedCategory]] when the selection changed. String options
    normalise to [{ value: opt, label: opt }]. [Home] imports
    [CategorySelect] from [@/components/category-select], which is not
    among the sources; the [CategorySelect] exported by
    [src/app/category/page.tsx] is the one modelled here. *)
Definition select_category (nextValue : string) (st : list string * string)
    : list string * string :=
  let '(cats, sel) := st in
  let cats1 := if existsb (String.eqb nextValue) cats then cats
               else handleCreateCategory nextValue cats in
  if String.eqb nextValue sel then (cats1, sel)
  else (ensure_selected nextValue cats1, nextValue).

(** [filtered] of [CategorySelect] over string options. *)
Definition includes (s q : string) : bool :=
  let fix go (s : string) : bool :=
    String.prefix q s || match s with EmptyString => false | String _ r => go r end in
  go s.

Definition filtered (query : string) (options : list string) : list string :=
  let q := lower (trim query) in
  if String.eqb q "" then options
  else List.filter (fun o => includes (lower o) q) options.

(** [shouldShowCreate] *)
Definition shouldShowCreate (query : string) (options : list string) : bool :=
  let queryTrimmed := trim query in
  negb (String.eqb queryTrimmed "") &&
  negb (existsb (fun o => String.eqb (lower o) (lower queryTrimmed)) options).

(** What the category list and the selection keep: no two labels share a
    key, and a non-empty selection has its key in the list. *)
Definition cat_inv (st : list string * string) : Prop :=
  NoDup (map cat_key st.1) /\ (st.2 <> ""%string -> In (cat_key st.2) (map cat_key st.1)).

End CategoryList.

(* ------------------------------------------------------------------ *)
(** ** Category page: daily view *)

(** [setDayOffset((d) => d - 1)] and [setDayOffset((d) => Math.min(0, d + 1))]
    (the latter button is disabled when [dayOffset >= 0]). *)
Inductive DayNav := PrevDay | NextDay.

Definition day_nav (b : DayNav) (d : Z) : Z :=
  match b with
  | PrevDay => d - 1
  | NextDay => if 0 <=? d then d else Z.min 0 (d + 1)
  end.

Definition day_navs (bs : list DayNav) (d : Z) : Z := fold_left (fun d b => day_nav b d) bs d.

(** The [dailyTotalsByCategory] memo of [CategoryPage]. *)
Definition dailyTotals (z : Zone) (now dayOffset : Z) (events : list FocusEvent)
    : gmap string Z :=
  let start := start_of_day z (add_local_days z now dayOffset) in
  let end_ := add_local_days z start 1 in
  foldl (fun m ev =>
           if (start <=? ts ev) && (ts ev <? end_)
           then <[category ev := default 0 (m !! category ev) + minutes ev]> m
           else m) ∅ events.

(* ------------------------------------------------------------------ *)
(** ** Operations on [Home] *)

(** The user actions and timer firings the session engine reacts to. *)
Inductive Op :=
  | OpTick (now : Z)
  | OpStartPause
  | OpReset
  | OpSkip
  | OpDuration (f : DurationField) (value : option Z).

Definition step (o : Op) (s : Home) : Home :=
  match o with
  | OpTick now => tick now s
  | OpStartPause => handleStartPause s
  | OpReset => handleReset s
  | OpSkip => handleSkip s
  | OpDuration f v => handleDurationInput f v s
  end.

Definition run_ops (os : list Op) (s : Home) : Home := fold_left (fun s o => step o s) os s.


(** What every reachable state of [Home] satisfies: durations within the
    settings bounds, the countdown within the current phase, and an
    interval exactly while running, closed over the current mode and
    in-range durations. *)
Definition Inv (s : Home) : Prop :=
  durations_in_range (durations s) /\
  0 <= remainingSeconds s <= dur (durations s) (mode s) * 60 /\
  match interval s with
  | None => isRunning s = false
  | Some c => isRunning s = true /\ c_mode c = mode s /\ durations_in_range (c_durations c)
  end.

(* ------------------------------------------------------------------ *)
(** ** Quantities used to state the statistics views *)

(** The minutes of a list of events. *)
Definition sum_minutes (l : list FocusEvent) : Z := foldr (fun e acc => minutes e + acc) 0 l.

(** The tests of the [weekly] loop for a week starting at instant [W]:
    [ev.ts >= startMs && ev.ts < endMs], and the row index [idx]. *)
Definition in_week (W : Z) (e : FocusEvent) : bool := (W <=? ts e) && (ts e <? W + 7 * DAY).

Definition week_idx (W : Z) (e : FocusEvent) : nat := Z.to_nat ((ts e - W) / DAY).

(** The minutes of a row's breakdown. *)
Definition bd_sum (b : list (string * Z)) : Z := fold_right Z.add 0 (map snd b).

(** A row whose breakdown has one entry per label and adds up to its total. *)
Definition row_ok (r : DayRow) : Prop :=
  NoDup (map fst (row_breakdown r)) /\ bd_sum (row_breakdown r) = row_total r.

(* ------------------------------------------------------------------ *)
(** ** Lemmas on the session engine *)

Section Engine.

Lemma set_remaining_twice r1 r2 s :
  set_remaining r1 (set_remaining r2 s) = set_remaining r1 s.
Proof. now destruct s. Qed.

Lemma ticks_S_end n now s : ticks (S n) now s = tick now (ticks n now s).
Proof.
  revert s. induction n as [|n IH]; intros s; [reflexivity|].
  change (ticks (S (S n)) now s) with (ticks (S n) now (tick now s)).
  rewrite IH. reflexivity.
Qed.

Lemma nextMode_changes cnt m : mode_eqb m (nextMode cnt m) = false.
Proof.
  destruct m; simpl; [destruct (Z.rem (cnt + 1) 4 =? 0)|..]; reflexivity.
Qed.

(** While the countdown is above one second, each firing only decrements. *)
Lemma ticks_countdown now c (k : nat) (s : Home) :
  interval s = Some c ->
  remainingSeconds s = Z.of_nat k + 1 ->
  ticks k now s = set_remaining 1 s.
Proof.
  revert s. induction k as [|k IH]; intros s Hi Hr.
  - simpl. destruct s; simpl in *; subst; reflexivity.
  - cbn [ticks]. unfold tick at 1. rewrite Hi.
    assert (Hgt : (remainingSeconds s <=? 1) = false) by (apply Z.leb_gt; lia).
    rewrite Hgt. unfold tick_updater. rewrite Hgt.
    rewrite IH; [apply set_remaining_twice | destruct s; exact Hi | simpl; lia].
Qed.

Lemma ticks_prefix now c (k : nat) (s : Home) (r : Z) :
  interval s = Some c ->
  remainingSeconds s = r ->
  Z.of_nat k < r ->
  ticks k now s = set_remaining (r - Z.of_nat k) s.
Proof.
  revert s r. induction k as [|k IH]; intros s r Hi Hr Hlt.
  - cbn [ticks Z.of_nat]. rewrite Z.sub_0_r. destruct s; simpl in *; subst; reflexivity.
  - cbn [ticks]. unfold tick at 1. rewrite Hi.
    assert (Hgt : (remainingSeconds s <=? 1) = false) by (apply Z.leb_gt; lia).
    rewrite Hgt. unfold tick_updater. rewrite Hgt.
    rewrite (IH _ (r - 1)); [rewrite set_remaining_twice; f_equal; lia
                | destruct s; exact Hi | simpl; lia | lia].
Qed.

(** The state in which a fresh countdown starts. *)
Lemma fresh_start s :
  handleStartPause (handleReset s) =
  mkHome (durations s) (mode s) true (dur (durations s) (mode s) * 60)
    (completedFocusCount s) (totalMinutes s) (selectedCategory s)
    (categoryMinutesStore s) (focusEventsStore s)
    (Some (mkClosure (mode s) (durations s) (completedFocusCount s)
             (selectedCategory s))).
Proof.
  destruct s as [d m r rs cnt tm sel cm ev iv]; destruct r; reflexivity.
Qed.

(** The state reached by a full phase. *)
Definition finished_state (now : Z) (s : Home) : Home :=
  let nm := nextMode (completedFocusCount s) (mode s) in
  let '(cm', ev') :=
    if is_focus (mode s)
    then record_completion now (trim (selectedCategory s)) (focus (durations s))
           (categoryMinutesStore s) (focusEventsStore s)
    else (categoryMinutesStore s, focusEventsStore s) in
  mkHome (durations s) nm false (dur (durations s) nm * 60)
    (completedFocusCount s + (if is_focus (mode s) then 1 else 0))
    (totalMinutes s + (if is_focus (mode s) then focus (durations s) else 0))
    (selectedCategory s) cm' ev' None.

Lemma run_interval_finished now s :
  1 <= dur (durations s) (mode s) ->
  run_interval now s = finished_state now s.
Proof.
  intros Hd. unfold run_interval. rewrite fresh_start.
  set (D := dur (durations s) (mode s)).
  replace (Z.to_nat (D * 60)) with (S (Z.to_nat (D * 60 - 1))) by lia.
  rewrite ticks_S_end.
  erewrite ticks_countdown; [| reflexivity | simpl; lia].
  unfold tick; simpl.
  unfold onFinish, finished_state, sync_remaining; simpl.
  destruct s as [d m r rs cnt tm sel cm ev iv]; simpl in *.
  unfold set_remaining, set_mode, set_running, tick_updater; simpl.
  destruct m; simpl;
    [destruct (record_completion now (trim sel) (focus d) cm ev) as [cm' ev']|..];
    simpl; rewrite ?nextMode_changes; simpl; rewrite ?Z.add_0_r;
    [destruct (Z.rem (cnt + 1) 4 =? 0)|..]; reflexivity.
Qed.

Lemma finished_fields now s :
  durations (finished_state now s) = durations s /\
  mode (finished_state now s) = nextMode (completedFocusCount s) (mode s) /\
  completedFocusCount (finished_state now s) =
    completedFocusCount s + (if is_focus (mode s) then 1 else 0).
Proof.
  unfold finished_state.
  destruct (if is_focus (mode s) then _ else _) as [cm' ev']; simpl; auto.
Qed.

Lemma nextMode_Focus cnt :
  nextMode cnt Focus = if (cnt + 1) mod 4 =? 0 then Long else Short.
Proof.
  simpl. destruct (Z.rem (cnt + 1) 4 =? 0) eqn:E1, ((cnt + 1) mod 4 =? 0) eqn:E2;
    try reflexivity; exfalso.
  - apply Z.eqb_eq in E1. apply Z.eqb_neq in E2.
    apply E2, Z.rem_mod_eq_0; [lia | exact E1].
  - apply Z.eqb_neq in E1. apply Z.eqb_eq in E2.
    apply E1, Z.rem_mod_eq_0; [lia | exact E2].
Qed.

(** After [k] rounds the timer is back in focus with [k] more completions. *)
Lemma focus_rounds_state now s k :
  mode s = Focus ->
  1 <= focus (durations s) -> 1 <= short (durations s) -> 1 <= long (durations s) ->
  mode (focus_rounds k now s) = Focus /\
  durations (focus_rounds k now s) = durations s /\
  completedFocusCount (focus_rounds k now s) = completedFocusCount s + Z.of_nat k.
Proof.
  intros Hm Hf Hs Hl. induction k as [|k [IHm [IHd IHc]]].
  - simpl. rewrite Z.add_0_r. auto.
  - simpl. set (s1 := focus_rounds k now s) in *.
    rewrite (run_interval_finished now s1) by (rewrite IHm, IHd; exact Hf).
    destruct (finished_fields now s1) as [D1 [M1 C1]].
    rewrite IHm in M1, C1. simpl in C1.
    assert (Hb : 1 <= dur (durations (finished_state now s1))
                          (mode (finished_state now s1))).
    { rewrite D1, M1, IHd. simpl.
      destruct (Z.rem (completedFocusCount s1 + 1) 4 =? 0); simpl; assumption. }
    rewrite (run_interval_finished now _ Hb).
    destruct (finished_fields now (finished_state now s1)) as [D2 [M2 C2]].
    rewrite D2, M2, C2, D1, M1, C1, IHd, IHc.
    simpl. match goal with |- context [if ?b then Long else Short] => destruct b end;
      simpl; (split; [reflexivity | split; [reflexivity | lia]]).
Qed.

End Engine.

(* ------------------------------------------------------------------ *)
(** ** Lemmas on the statistics store *)

Section Store.






Lemma sum_minutes_app l1 l2 : sum_minutes (l1 ++ l2) = sum_minutes l1 + sum_minutes l2.
Proof. induction l1 as [|e l1 IH]; simpl; [reflexivity | unfold sum_minutes in *; simpl; lia]. Qed.




End Store.

(* ------------------------------------------------------------------ *)
(** ** Lemmas on the durations record *)

Section DurationsLemmas.

Lemma tick_durations now s : durations (tick now s) = durations s.
Proof.
  destruct s as [d m r rs cnt tm sel cm ev iv].
  unfold tick; simpl. destruct iv as [c|]; [|reflexivity].
  destruct (rs <=? 1); [|reflexivity].
  unfold sync_remaining, onFinish, set_running, set_remaining, set_mode; simpl.
  destruct r, (c_mode c); simpl;
    try destruct (record_completion _ _ _ _ _); simpl;
    destruct (negb _); reflexivity.
Qed.

Lemma skip_durations s : durations (handleSkip s) = durations s.
Proof.
  destruct s as [d m r rs cnt tm sel cm ev iv].
  unfold handleSkip, sync_remaining, set_running, set_remaining, set_mode; simpl.
  destruct r; simpl; destruct (negb _); reflexivity.
Qed.

Lemma reset_durations s : durations (handleReset s) = durations s.
Proof. destruct s as [d m [|] rs cnt tm sel cm ev iv]; reflexivity. Qed.

Lemma startpause_durations s : durations (handleStartPause s) = durations s.
Proof. destruct s as [d m [|] rs cnt tm sel cm ev iv]; reflexivity. Qed.

Lemma clamp_input_in_range v : in_range (clamp_input v).
Proof. unfold in_range, clamp_input. lia. Qed.

End DurationsLemmas.

(* ------------------------------------------------------------------ *)
(** ** Lemmas on the colour map *)

Section Colours.

Variable cmp : string -> string -> comparison.

Lemma insert_by_perm x (l : list string) : insert_by cmp x l ≡ₚ x :: l.
Proof.
  induction l as [|y l IH]; simpl; [reflexivity|].
  destruct (cmp x y); try reflexivity;
    rewrite IH; apply perm_swap.
Qed.

Lemma sort_by_perm_acc (l acc : list string) :
  fold_left (fun acc x => insert_by cmp x acc) l acc ≡ₚ l ++ acc.
Proof.
  revert acc. induction l as [|x l IH]; intros acc; simpl; [reflexivity|].
  rewrite IH, insert_by_perm. symmetry. apply Permutation_middle.
Qed.

Lemma sort_by_perm (l : list string) : sort_by cmp l ≡ₚ l.
Proof. unfold sort_by. rewrite sort_by_perm_acc, app_nil_r. reflexivity. Qed.

End Colours.

Lemma set_add_fold (l acc : list string) :
  NoDup acc ->
  NoDup (fold_left set_add l acc) /\
  (forall x, In x (fold_left set_add l acc) <-> In x acc \/ In x l).
Proof.
  revert acc. induction l as [|y l IH]; intros acc Hacc; simpl.
  - split; [exact Hacc | intros x; tauto].
  - assert (Hstep : NoDup (set_add acc y) /\
                    (forall x, In x (set_add acc y) <-> In x acc \/ x = y)).
    { unfold set_add. destruct (existsb (String.eqb y) acc) eqn:E.
      - apply existsb_exists in E as [w [Hw Hyw]]. apply String.eqb_eq in Hyw; subst w.
        split; [exact Hacc|]. intros x; split; [tauto|]. intros [H | ->]; auto.
      - split.
        + apply NoDup_app; split; [exact Hacc|]. split; [|apply NoDup_singleton].
          intros x Hx Hx'. apply list_elem_of_In in Hx.
          apply list_elem_of_singleton in Hx'; subst x.
          assert (existsb (String.eqb y) acc = true)
            by (apply existsb_exists; exists y; split; [exact Hx | apply String.eqb_refl]).
          congruence.
        + intros x. rewrite in_app_iff. simpl. intuition. }
    destruct Hstep as [Hnd Hin].
    destruct (IH _ Hnd) as [H1 H2]. split; [exact H1|].
    intros x. rewrite H2, Hin. simpl. intuition.
Qed.

Lemma color_map_notin (labels : list string) :
  forall i m x, ~ In x labels -> color_map_from i labels m !! x = m !! x.
Proof.
  induction labels as [|l r IH]; intros i m x Hx; simpl; [reflexivity|].
  rewrite IH by (simpl in Hx; tauto).
  apply lookup_insert_ne. intros ->. apply Hx. left. reflexivity.
Qed.

Lemma color_map_in (labels : list string) :
  NoDup labels ->
  forall i m j x, labels !! j = Some x ->
  color_map_from i labels m !! x = Some (nth ((i + j) mod 5) palette ""%string).
Proof.
  induction labels as [|l r IH]; intros Hnd i m j x Hj; [discriminate|].
  apply NoDup_cons in Hnd as [Hl Hr].
  destruct j as [|j]; simpl in Hj.
  - injection Hj as <-. simpl.
    rewrite color_map_notin by (intros H; apply Hl, list_elem_of_In, H).
    rewrite lookup_insert_eq. rewrite Nat.add_0_r. reflexivity.
  - simpl. rewrite (IH Hr (S i) _ j x Hj).
    replace (S i + j)%nat with (i + S j)%nat by lia. reflexivity.
Qed.

(* ------------------------------------------------------------------ *)
(** ** Claims *)

(** C1. Leaving focus (by a countdown reaching zero or by [handleSkip])
    goes to the long break exactly when [(completedFocusCount + 1) mod 4]
    is [0], otherwise to the short break; from either break the next mode
    is focus. Starting in focus with [completedFocusCount = 0], the break
    scheduled after the [n]-th completed focus phase is long exactly when
    [n mod 4 = 0]. *)
Theorem C1_transition_rule :
  (forall cnt, nextMode cnt Focus = if (cnt + 1) mod 4 =? 0 then Long else Short) /\
  (forall cnt, nextMode cnt Short = Focus /\ nextMode cnt Long = Focus) /\
  (forall s, mode (handleSkip s) = nextMode (completedFocusCount s) (mode s)) /\
  (forall now s, 1 <= dur (durations s) (mode s) ->
     mode (run_interval now s) = nextMode (completedFocusCount s) (mode s)) /\
  (forall now s (k : nat),
     mode s = Focus -> completedFocusCount s = 0 ->
     1 <= focus (durations s) -> 1 <= short (durations s) -> 1 <= long (durations s) ->
     mode (run_interval now (focus_rounds k now s)) =
       if Z.of_nat (S k) mod 4 =? 0 then Long else Short).
Proof.
  split; [exact nextMode_Focus|].
  split; [intros cnt; split; reflexivity|].
  split.
  { intros s. destruct s as [d m r rs cnt tm sel cm ev iv].
    unfold handleSkip, sync_remaining, set_running, set_remaining, set_mode.
    destruct r; simpl; rewrite ?nextMode_changes; reflexivity. }
  split.
  { intros now s Hd. rewrite run_interval_finished by exact Hd.
    apply finished_fields. }
  intros now s k Hm Hc Hf Hs Hl.
  destruct (focus_rounds_state now s k Hm Hf Hs Hl) as [Mk [Dk Ck]].
  rewrite run_interval_finished by (rewrite Mk, Dk; exact Hf).
  destruct (finished_fields now (focus_rounds k now s)) as [_ [M _]].
  rewrite M, Mk, Ck, Hc, nextMode_Focus.
  replace (0 + Z.of_nat k + 1) with (Z.of_nat (S k)) by lia. reflexivity.
Qed.

Lemma C1_transition_rule_witness :
  mode (run_interval 0 (focus_rounds 3 0
          (mkHome DEFAULT_DURATIONS Focus false 1500 0 0 "Genel"
             SAbsent SAbsent None))) = Long.
Proof.
  destruct C1_transition_rule as [_ [_ [_ [_ H]]]].
  rewrite (H 0 _ 3%nat); unfold DEFAULT_DURATIONS; simpl; try reflexivity; lia.
Defined.

(** C2. From a fresh [handleReset] followed by [handleStartPause], the
    first [durations[mode]*60 - 1] firings only count down (same mode,
    still running); the last one sees the updater return [0] and performs
    exactly one transition: the mode becomes [nextMode], the timer stops,
    and only when the finished mode was focus the focus count grows by
    one, [totalMinutes] by [durations.focus], and one event is appended to
    the log (with the category cache updated). *)
Theorem C2_fresh_interval_ticks (now : Z) (s : Home)
    (Hd : 1 <= dur (durations s) (mode s)) :
  let s0 := handleStartPause (handleReset s) in
  let D := Z.to_nat (dur (durations s) (mode s) * 60) in
  let sD := ticks D now s0 in
  (forall k, (k < D)%nat ->
     mode (ticks k now s0) = mode s /\ isRunning (ticks k now s0) = true /\
     remainingSeconds (ticks k now s0) = dur (durations s) (mode s) * 60 - Z.of_nat k) /\
  tick_updater (remainingSeconds (ticks (D - 1) now s0)) = 0 /\
  mode sD = nextMode (completedFocusCount s) (mode s) /\
  mode sD <> mode s /\
  isRunning sD = false /\
  completedFocusCount sD = completedFocusCount s + (if is_focus (mode s) then 1 else 0) /\
  totalMinutes sD = totalMinutes s + (if is_focus (mode s) then focus (durations s) else 0) /\
  (categoryMinutesStore sD, focusEventsStore sD) =
    (if is_focus (mode s)
     then record_completion now (trim (selectedCategory s)) (focus (durations s))
            (categoryMinutesStore s) (focusEventsStore s)
     else (categoryMinutesStore s, focusEventsStore s)).
Proof.
  intros s0 D sD.
  assert (Hs0 : interval s0 = Some (mkClosure (mode s) (durations s)
                                      (completedFocusCount s) (selectedCategory s))).
  { unfold s0. rewrite fresh_start. reflexivity. }
  assert (Hr0 : remainingSeconds s0 = dur (durations s) (mode s) * 60).
  { unfold s0. rewrite fresh_start. reflexivity. }
  split.
  { intros k Hk. unfold D in Hk.
    rewrite (ticks_prefix now _ k s0 _ Hs0 Hr0) by lia.
    unfold s0. rewrite fresh_start. simpl. auto. }
  split.
  { rewrite (ticks_prefix now _ (D - 1) s0 _ Hs0 Hr0) by (unfold D; lia).
    simpl. unfold tick_updater.
    replace (dur (durations s) (mode s) * 60 - Z.of_nat (D - 1)) with 1
      by (unfold D; lia). reflexivity. }
  assert (HsD : sD = finished_state now s).
  { unfold sD, D, s0. apply run_interval_finished, Hd. }
  rewrite HsD. unfold finished_state.
  destruct (if is_focus (mode s) then _ else _) as [cm' ev'] eqn:E; simpl.
  split; [reflexivity|].
  split; [intros Heq; pose proof (nextMode_changes (completedFocusCount s) (mode s)) as Hc;
          rewrite Heq in Hc; destruct (mode s); discriminate|].
  repeat split; reflexivity.
Qed.

Lemma C2_fresh_interval_ticks_witness :
  1 <= dur (durations (mkHome DEFAULT_DURATIONS Focus false 7 3 75 "Genel"
                         SAbsent SAbsent None)) Focus /\
  mode (ticks 1500 0 (handleStartPause (handleReset
          (mkHome DEFAULT_DURATIONS Focus false 7 3 75 "Genel"
             SAbsent SAbsent None)))) = Long.
Proof.
  split; [unfold DEFAULT_DURATIONS; simpl; lia|].
  destruct (C2_fresh_interval_ticks 0
              (mkHome DEFAULT_DURATIONS Focus false 7 3 75 "Genel" SAbsent SAbsent None)
              ltac:(unfold DEFAULT_DURATIONS; simpl; lia)) as [_ [_ [H _]]].
  exact H.
Defined.

(** C3. [handleSkip] leaves the focus count, [totalMinutes], the category
    cache and the event log unchanged in every mode; it stops the timer
    and moves to [nextMode] with a fresh countdown of that mode. *)
Theorem C3_skip_frame (s : Home) :
  let s' := handleSkip s in
  completedFocusCount s' = completedFocusCount s /\
  totalMinutes s' = totalMinutes s /\
  categoryMinutesStore s' = categoryMinutesStore s /\
  focusEventsStore s' = focusEventsStore s /\
  durations s' = durations s /\
  selectedCategory s' = selectedCategory s /\
  isRunning s' = false /\
  mode s' = nextMode (completedFocusCount s) (mode s) /\
  remainingSeconds s' = dur (durations s) (mode s') * 60.
Proof.
  destruct s as [d m r rs cnt tm sel cm ev iv].
  unfold handleSkip, sync_remaining, set_running, set_remaining, set_mode.
  destruct r, m; unfold nextMode; simpl;
    try destruct (Z.rem (cnt + 1) 4 =? 0); simpl; repeat split.
Qed.

(** C4. The event log written by [onFinish] keeps insertion order and is
    capped at 1000 entries: below the cap an append keeps every event;
    appending to a log of 1000 events drops exactly the oldest one and
    leaves the other 999 followed by the new event. *)
Theorem C4_event_log_cap :
  (forall (l : list FocusEvent) e, (length l < 1000)%nat -> cap_events (l ++ [e]) = l ++ [e]) /\
  (forall (x : FocusEvent) l e, length l = 999%nat ->
     cap_events ((x :: l) ++ [e]) = l ++ [e] /\
     length (cap_events ((x :: l) ++ [e])) = 1000%nat) /\
  (forall now label m cm (x : FocusEvent) l, length l = 999%nat ->
     (record_completion now label m cm (SValue (x :: l))).2
       = SValue (l ++ [mkFocusEvent now label m])).
Proof.
  assert (Hfull : forall (x : FocusEvent) l e, length l = 999%nat ->
            cap_events ((x :: l) ++ [e]) = l ++ [e]).
  { intros x l e Hl. unfold cap_events. rewrite length_app. simpl. rewrite Hl.
    simpl. reflexivity. }
  split; [|split].
  - intros l e Hl. unfold cap_events. rewrite length_app. simpl.
    destruct (Nat.ltb 1000 (length l + 1)) eqn:E; [apply Nat.ltb_lt in E; lia|].
    reflexivity.
  - intros x l e Hl. rewrite (Hfull x l e Hl). split; [reflexivity|].
    rewrite length_app, Hl. reflexivity.
  - intros now label m cm x l Hl. unfold record_completion. cbn [snd load_or].
    f_equal. apply Hfull, Hl.
Qed.

Lemma C4_event_log_cap_witness :
  cap_events ((mkFocusEvent 0 "Genel" 25 :: repeat (mkFocusEvent 1 "Okuma" 25) 999)
                ++ [mkFocusEvent 2 "Genel" 25])
    = repeat (mkFocusEvent 1 "Okuma" 25) 999 ++ [mkFocusEvent 2 "Genel" 25].
Proof.
  destruct C4_event_log_cap as [_ [H _]].
  apply H. apply repeat_length.
Defined.




(** C10. Storing any durations record resets the countdown to the current
    mode's new duration and leaves the mode, the running flag and the
    running interval as they were; the settings inputs go through this. *)
Theorem C10_durations_change_resets (d : Durations) (s : Home) :
  let s' := setDurations d s in
  durations s' = d /\
  remainingSeconds s' = dur d (mode s) * 60 /\
  mode s' = mode s /\
  isRunning s' = isRunning s /\
  interval s' = interval s /\
  completedFocusCount s' = completedFocusCount s /\
  totalMinutes s' = totalMinutes s /\
  (forall f v, handleDurationInput f v s = setDurations (edit_durations (durations s) f v) s).
Proof.
  destruct s as [d0 m r rs cnt tm sel cm ev iv].
  unfold setDurations, sync_remaining, set_durations, set_remaining. simpl.
  repeat split.
Qed.

(** C6 (counterexample). A stored durations object [{"focus": 500}] is
    loaded as is: the focus duration becomes 500, outside [1,180]. *)
Lemma C6_loaded_out_of_range :
  durations_of_js (load_durations DEFAULT_DURATIONS_JS
                     (Some (TJson (JObj [("focus"%string, JNum 500)]))))
    = Some (mkDurations 500 5 15) /\
  ~ durations_in_range (mkDurations 500 5 15).
Proof.
  split; [vm_compute; reflexivity|].
  unfold durations_in_range, in_range; simpl. lia.
Qed.

(** C6 (amended). Every value entered through the settings inputs is
    clamped to [1,180], so an edit keeps a record in range; no other
    handler touches the record; the loader merges the stored object over
    the defaults without clamping, so the loaded record is in range when
    every focus/short/long entry the stored object has is an in-range
    number (in particular when nothing, corrupt JSON or a non-object is
    stored). *)
Theorem C6_clamped_inputs_and_unchecked_load :
  (forall v, in_range (clamp_input v)) /\
  (forall d f v, durations_in_range d -> durations_in_range (edit_durations d f v)) /\
  (forall now s, durations (tick now s) = durations s) /\
  (forall s, durations (handleSkip s) = durations s) /\
  (forall s, durations (handleReset s) = durations s) /\
  (forall s, durations (handleStartPause s) = durations s) /\
  (forall f v s, durations (handleDurationInput f v s) = edit_durations (durations s) f v) /\
  (forall item,
     (forall kvs, item = Some (TJson (JObj kvs)) ->
        forall k, In k ["focus"; "short"; "long"]%string ->
          match obj_get kvs k with
          | None => True
          | Some v => exists z, v = JNum z /\ in_range z
          end) ->
     exists d, durations_of_js (load_durations DEFAULT_DURATIONS_JS item) = Some d /\
               durations_in_range d).
Proof.
  split; [exact clamp_input_in_range|].
  split.
  { intros d f v [Hf [Hs Hl]].
    unfold in_range in *. destruct f; simpl;
      unfold durations_in_range, in_range, clamp_input; simpl; destruct v; lia. }
  split; [exact tick_durations|].
  split; [exact skip_durations|].
  split; [exact reset_durations|].
  split; [exact startpause_durations|].
  split; [intros f v s; destruct s; reflexivity|].
  intros item Hitem.
  assert (Hdef : durations_in_range DEFAULT_DURATIONS)
    by (unfold durations_in_range, in_range; simpl; lia).
  destruct item as [[|[| | | | |kvs]]|];
    try (exists DEFAULT_DURATIONS; split; [reflexivity | exact Hdef]).
  pose proof (Hitem kvs eq_refl) as H.
  assert (Hk : forall k dz, 1 <= dz <= 180 -> In k ["focus"; "short"; "long"]%string ->
             exists z, default (JNum dz) (obj_get kvs k) = JNum z /\ in_range z).
  { intros k dz Hdz Hin. specialize (H k Hin).
    destruct (obj_get kvs k) as [v|]; simpl.
    - destruct H as [z [-> Hz]]. eauto.
    - exists dz. split; [reflexivity | exact Hdz]. }
  destruct (Hk "focus"%string 25 ltac:(lia) ltac:(simpl; auto)) as [f [Ef Hf]].
  destruct (Hk "short"%string 5 ltac:(lia) ltac:(simpl; auto)) as [sh [Es Hs]].
  destruct (Hk "long"%string 15 ltac:(lia) ltac:(simpl; auto)) as [l [El Hl]].
  exists (mkDurations f sh l). unfold load_durations, durations_of_js. simpl.
  rewrite Ef, Es, El. split; [reflexivity|].
  unfold durations_in_range; simpl. auto.
Qed.

Lemma C6_clamped_inputs_and_unchecked_load_witness :
  exists d, durations_of_js (load_durations DEFAULT_DURATIONS_JS
               (Some (TJson (JObj [("focus"%string, JNum 50)])))) = Some d /\
            durations_in_range d.
Proof.
  destruct C6_clamped_inputs_and_unchecked_load as [_ [_ [_ [_ [_ [_ [_ H]]]]]]].
  apply H. intros kvs Hkvs k Hk. injection Hkvs as <-.
  simpl in Hk. destruct Hk as [<- | [<- | [<- | []]]]; simpl; try exact I.
  exists 50. split; [reflexivity | unfold in_range; lia].
Defined.




(** C8 (failing input). Europe/Berlin around the end of summer time 2025
    (CEST until 2025-10-26 01:00 UTC, CET after). At Sunday 2025-10-26
    23:45 CET, an event of Sunday 23:30 CET lies in the current
    Monday-to-Sunday week and on its Sunday, yet [weekly] counts it on no
    day and in no category total, because the week is cut 7 x 24 h after
    its start. *)
Theorem C8_weekly_fall_back_sunday_dropped :
  let z := mkZone 1761440400000 7200000 3600000 in
  let now := 1761518700000 in
  let e := mkFocusEvent 1761517800000 "Genel" 25 in
  let weekStart := row_date (nth 0 (weekly z now [e]).1 (mkDayRow 0 0 [])) in
  getDay z now = 0 /\ getDay z (ts e) = 0 /\
  local_of z (ts e) / DAY = local_of z now / DAY /\
  getDay z weekStart = 1 /\ local_of z weekStart mod DAY = 0 /\
  weekStart <= ts e < add_local_days z weekStart 7 /\
  length (weekly z now [e]).1 = 7%nat /\
  map row_total (weekly z now [e]).1 = [0; 0; 0; 0; 0; 0; 0] /\
  (weekly z now [e]).2 !! "Genel"%string = None.
Proof. vm_compute. repeat split; try reflexivity; discriminate. Qed.

(** C9 (counterexample). With the events ["b"] then ["a"] (first seen in
    that order), ["b"] gets the second palette colour, not the first:
    the labels are sorted before colours are handed out. [String.compare]
    stands for [localeCompare(_, "tr")], which orders these two letters
    the same way. *)
Lemma C9_colours_not_first_seen :
  allCategories String.compare [] [mkFocusEvent 0 "b" 25; mkFocusEvent 1 "a" 25]
    = ["a"; "b"]%string /\
  categoryColor String.compare [] [mkFocusEvent 0 "b" 25; mkFocusEvent 1 "a" 25] "b"
    = "var(--chart-2)"%string /\
  categoryColor String.compare [] [mkFocusEvent 0 "b" 25; mkFocusEvent 1 "a" 25] "b"
    <> nth 0 palette ""%string.
Proof. vm_compute. split; [reflexivity|]. split; [reflexivity|]. discriminate. Qed.

(** C9 (amended). For any [localeCompare], the coloured labels are the
    distinct non-blank labels that are cache keys or event categories,
    listed in [localeCompare] order; the label at position [i] gets
    palette colour [i mod 5], and every other label gets the first
    colour. *)
Theorem C9_sorted_colour_assignment (localeCompare : string -> string -> comparison)
    (cacheKeys : list string) (events : list FocusEvent) :
  let L := allCategories localeCompare cacheKeys events in
  L = sort_by localeCompare
        (List.filter (fun x => negb (String.eqb (trim x) ""))
           (fold_left set_add (cacheKeys ++ map category events) [])) /\
  NoDup L /\
  (forall x, In x L <-> (In x cacheKeys \/ In x (map category events)) /\
                        trim x <> ""%string) /\
  (forall i x, L !! i = Some x ->
     categoryColor localeCompare cacheKeys events x = nth (i mod 5) palette ""%string) /\
  (forall x, ~ In x L ->
     categoryColor localeCompare cacheKeys events x = nth 0 palette ""%string).
Proof.
  intros L.
  set (F := List.filter (fun x => negb (String.eqb (trim x) ""))
              (fold_left set_add (cacheKeys ++ map category events) [])).
  assert (HL : L ≡ₚ F) by apply sort_by_perm.
  destruct (set_add_fold (cacheKeys ++ map category events) [] (NoDup_nil_2))
    as [Hnd Hin].
  assert (HndL : NoDup L).
  { rewrite HL. unfold F. apply NoDup_ListNoDup, List.NoDup_filter, NoDup_ListNoDup, Hnd. }
  split; [reflexivity|]. split; [exact HndL|].
  split.
  { intros x. rewrite HL. unfold F. rewrite filter_In, Hin, in_app_iff.
    rewrite Bool.negb_true_iff, String.eqb_neq. simpl. tauto. }
  split.
  { intros i x Hi. unfold categoryColor. fold L.
    rewrite (color_map_in L HndL 0 ∅ i x Hi). reflexivity. }
  intros x Hx. unfold categoryColor. fold L.
  rewrite color_map_notin by exact Hx. reflexivity.
Qed.

Lemma C9_sorted_colour_assignment_witness :
  categoryColor String.compare ["Okuma"; "Genel"]%string [] "Okuma"
    = nth (1 mod 5) palette ""%string.
Proof.
  destruct (C9_sorted_colour_assignment String.compare ["Okuma"; "Genel"]%string [])
    as [_ [_ [_ [H _]]]].
  apply H. vm_compute. reflexivity.
Defined.


(* ------------------------------------------------------------------ *)
(** ** Further properties: strings *)

Section Trim.


Lemma list_ascii_of_string_app (x y : string) :
  list_ascii_of_string (x ++ y)%string = list_ascii_of_string x ++ list_ascii_of_string y.
Proof. induction x as [|c x IH]; simpl; [reflexivity | now rewrite IH]. Qed.

Lemma rev_string_involutive s : rev_string (rev_string s) = s.
Proof.
  unfold rev_string. rewrite list_ascii_of_string_of_list_ascii, rev_involutive.
  apply string_of_list_ascii_of_string.
Qed.

Lemma rev_string_snoc (x : string) (c : ascii) :
  rev_string (x ++ String c "")%string = String c (rev_string x).
Proof.
  unfold rev_string. rewrite list_ascii_of_string_app. simpl.
  rewrite rev_app_distr. reflexivity.
Qed.

Lemma rev_string_cons (c : ascii) (r : string) :
  rev_string (String c r) = (rev_string r ++ String c "")%string.
Proof.
  rewrite <- (rev_string_involutive (rev_string r ++ String c "")%string).
  rewrite rev_string_snoc, rev_string_involutive. reflexivity.
Qed.

Lemma trim_start_idem s : trim_start (trim_start s) = trim_start s.
Proof.
  induction s as [|c s IH]; simpl; [reflexivity|].
  destruct (is_js_space c) eqn:E; [exact IH | simpl; rewrite E; reflexivity].
Qed.

Lemma trim_start_head s :
  trim_start s = EmptyString \/
  exists c r, trim_start s = String c r /\ is_js_space c = false.
Proof.
  induction s as [|c s IH]; simpl; [left; reflexivity|].
  destruct (is_js_space c) eqn:E; [exact IH | right; eauto].
Qed.

Lemma trim_start_snoc (x : string) (c : ascii) :
  is_js_space c = false ->
  exists k, trim_start (x ++ String c "")%string = (k ++ String c "")%string.
Proof.
  intros Hc. induction x as [|d x IH]; simpl.
  - rewrite Hc. exists EmptyString. reflexivity.
  - destruct (is_js_space d); [exact IH | exists (String d x); reflexivity].
Qed.

Lemma trim_idem s : trim (trim s) = trim s.
Proof.
  unfold trim.
  destruct (trim_start_head s) as [E | [c [r [E Hc]]]]; rewrite E.
  - reflexivity.
  - rewrite rev_string_cons.
    destruct (trim_start_snoc (rev_string r) c Hc) as [k Hk]. rewrite Hk.
    rewrite rev_string_snoc. simpl. rewrite Hc.
    rewrite <- rev_string_snoc, <- Hk, rev_string_involutive, trim_start_idem.
    reflexivity.
Qed.

End Trim.

(* ------------------------------------------------------------------ *)
(** ** Further properties: the clock display *)

Section Clock.






End Clock.



(* ------------------------------------------------------------------ *)
(** ** Further properties: the category list of the home page *)

Section Categories.

Variable lower : string -> string.

Lemma has_key_spec cats k :
  has_key lower cats k = true <-> In k (map (cat_key lower) cats).
Proof.
  unfold has_key. rewrite existsb_exists, in_map_iff.
  split; intros [x [H1 H2]]; exists x; split; try assumption.
  - apply String.eqb_eq in H2. exact H2.
  - apply String.eqb_eq. exact H1.
Qed.

Lemma cat_key_trim c : cat_key lower (trim c) = cat_key lower c.
Proof. unfold cat_key. rewrite trim_idem. reflexivity. Qed.

Lemma nodup_snoc_key (cats : list string) x :
  NoDup (map (cat_key lower) cats) -> ~ In (cat_key lower x) (map (cat_key lower) cats) ->
  NoDup (map (cat_key lower) (cats ++ [x])).
Proof.
  intros Hn Hx. rewrite map_app. simpl.
  apply NoDup_app; split; [exact Hn|]. split; [|apply NoDup_singleton].
  intros y Hy Hy'. apply list_elem_of_singleton in Hy'; subst y.
  apply Hx, list_elem_of_In, Hy.
Qed.

Lemma create_cases newLabel prev :
  let next := handleCreateCategory lower newLabel prev in
  (next = prev /\ (trim newLabel = ""%string \/
                   In (cat_key lower newLabel) (map (cat_key lower) prev))) \/
  (next = prev ++ [trim newLabel] /\ trim newLabel <> ""%string /\
   ~ In (cat_key lower newLabel) (map (cat_key lower) prev)).
Proof.
  unfold handleCreateCategory.
  destruct (String.eqb (trim newLabel) "") eqn:E1.
  - left. split; [reflexivity|]. left. apply String.eqb_eq, E1.
  - destruct (has_key lower prev (lower (trim newLabel))) eqn:E2.
    + left. split; [reflexivity|]. right. apply has_key_spec in E2. exact E2.
    + right. split; [reflexivity|]. split; [apply String.eqb_neq, E1|].
      intros H. apply (proj2 (has_key_spec prev _)) in H. unfold cat_key in H.
      congruence.
Qed.

Lemma create_cases_eq newLabel prev :
  (trim newLabel = ""%string \/ In (cat_key lower newLabel) (map (cat_key lower) prev)) ->
  handleCreateCategory lower newLabel prev = prev.
Proof.
  intros H. unfold handleCreateCategory.
  destruct H as [H | H].
  - rewrite H. reflexivity.
  - destruct (String.eqb (trim newLabel) "") eqn:E1; [reflexivity|].
    assert (E2 : has_key lower prev (lower (trim newLabel)) = true)
      by (apply has_key_spec; exact H).
    rewrite E2. reflexivity.
Qed.

Lemma ensure_cases selected cats :
  let next := ensure_selected lower selected cats in
  (next = cats /\ (selected = ""%string \/
                   In (cat_key lower selected) (map (cat_key lower) cats))) \/
  (next = cats ++ [selected] /\ selected <> ""%string /\
   ~ In (cat_key lower selected) (map (cat_key lower) cats)).
Proof.
  unfold ensure_selected.
  destruct (String.eqb selected "") eqn:E1.
  - left. split; [reflexivity|]. left. apply String.eqb_eq, E1.
  - destruct (has_key lower cats (cat_key lower selected)) eqn:E2.
    + left. split; [reflexivity|]. right. apply has_key_spec in E2. exact E2.
    + right. split; [reflexivity|]. split; [apply String.eqb_neq, E1|].
      intros H. apply (proj2 (has_key_spec cats _)) in H. congruence.
Qed.

Lemma in_keys_snoc (cats : list string) x k :
  In k (map (cat_key lower) cats) -> In k (map (cat_key lower) (cats ++ [x])).
Proof. intros H. rewrite map_app. apply in_or_app. left. exact H. Qed.

Lemma key_in_snoc (cats : list string) x :
  In (cat_key lower x) (map (cat_key lower) (cats ++ [x])).
Proof. rewrite map_app. apply in_or_app. right. left. reflexivity. Qed.

Lemma create_props newLabel prev :
  let next := handleCreateCategory lower newLabel prev in
  handleCreateCategory lower newLabel next = next /\
  (next = prev \/ next = prev ++ [trim newLabel]) /\
  (trim newLabel <> ""%string -> In (cat_key lower newLabel) (map (cat_key lower) next)) /\
  (NoDup (map (cat_key lower) prev) -> NoDup (map (cat_key lower) next)).
Proof.
  cbv zeta.
  destruct (create_cases newLabel prev) as [[-> Hwhy] | [-> [Hne Hnot]]].
  - rewrite (create_cases_eq newLabel prev Hwhy).
    split; [reflexivity|]. split; [left; reflexivity|].
    split; [|tauto]. intros Hne. destruct Hwhy; [contradiction | assumption].
  - split.
    + destruct (create_cases newLabel (prev ++ [trim newLabel]))
        as [[E _] | [_ [_ Hnot']]]; [exact E|].
      exfalso. apply Hnot'. rewrite <- cat_key_trim. apply key_in_snoc.
    + split; [right; reflexivity|]. split.
      * intros _. rewrite <- cat_key_trim. apply key_in_snoc.
      * intros Hn. apply nodup_snoc_key; [exact Hn|]. rewrite cat_key_trim. exact Hnot.
Qed.

Lemma ensure_cases_eq selected cats :
  (selected = ""%string \/ In (cat_key lower selected) (map (cat_key lower) cats)) ->
  ensure_selected lower selected cats = cats.
Proof.
  intros H. unfold ensure_selected.
  destruct H as [H | H].
  - rewrite H. reflexivity.
  - destruct (String.eqb selected "") eqn:E1; [reflexivity|].
    assert (E2 : has_key lower cats (cat_key lower selected) = true)
      by (apply has_key_spec; exact H).
    rewrite E2. reflexivity.
Qed.

Lemma ensure_props selected cats :
  let next := ensure_selected lower selected cats in
  ensure_selected lower selected next = next /\
  (next = cats \/ next = cats ++ [selected]) /\
  (selected <> ""%string -> In (cat_key lower selected) (map (cat_key lower) next)) /\
  (NoDup (map (cat_key lower) cats) -> NoDup (map (cat_key lower) next)).
Proof.
  cbv zeta.
  destruct (ensure_cases selected cats) as [[-> Hwhy] | [-> [Hne Hnot]]].
  - rewrite (ensure_cases_eq selected cats Hwhy).
    split; [reflexivity|]. split; [left; reflexivity|].
    split; [|tauto]. intros Hne. destruct Hwhy; [contradiction | assumption].
  - split; [apply ensure_cases_eq; right; apply key_in_snoc|].
    split; [right; reflexivity|]. split.
    + intros _. apply key_in_snoc.
    + intros Hn. apply nodup_snoc_key; assumption.
Qed.

(** X2. [handleCreateCategory] is idempotent; it either leaves the list
    unchanged or appends the trimmed label; afterwards a non-blank label's
    key is in the list, and a list without duplicate keys stays so. *)
Theorem X_handleCreateCategory newLabel prev :
  let next := handleCreateCategory lower newLabel prev in
  handleCreateCategory lower newLabel next = next /\
  (next = prev \/ next = prev ++ [trim newLabel]) /\
  (trim newLabel <> ""%string -> In (cat_key lower newLabel) (map (cat_key lower) next)) /\
  (NoDup (map (cat_key lower) prev) -> NoDup (map (cat_key lower) next)).
Proof. apply create_props. Qed.

(** X3. The effect that keeps the selection in the list is idempotent; it
    either leaves the list unchanged or appends the selection as it is;
    afterwards a non-empty selection's key is in the list, and a list
    without duplicate keys stays so. *)
Theorem X_ensure_selected selected cats :
  let next := ensure_selected lower selected cats in
  ensure_selected lower selected next = next /\
  (next = cats \/ next = cats ++ [selected]) /\
  (selected <> ""%string -> In (cat_key lower selected) (map (cat_key lower) next)) /\
  (NoDup (map (cat_key lower) cats) -> NoDup (map (cat_key lower) next)).
Proof. apply ensure_props. Qed.

(** X4. Choosing a value in [CategorySelect] keeps the list free of
    duplicate keys and the selection's key in the list; the chosen value
    becomes the selection, and the list only grows, by at most one label
    at its end. *)
Theorem X_select_category nextValue st :
  cat_inv lower st ->
  let st' := select_category lower nextValue st in
  cat_inv lower st' /\ st'.2 = nextValue /\
  exists extra, st'.1 = st.1 ++ extra /\ (length extra <= 1)%nat.
Proof.
  destruct st as [cats sel]. unfold cat_inv. cbn [fst snd]. intros [Hn Hs]. cbv zeta.
  set (cats1 := if existsb (String.eqb nextValue) cats then cats
                else handleCreateCategory lower nextValue cats).
  assert (H1 : NoDup (map (cat_key lower) cats1) /\
               (forall k, In k (map (cat_key lower) cats) -> In k (map (cat_key lower) cats1)) /\
               ((cats1 = cats) \/
                (cats1 = cats ++ [trim nextValue] /\
                 In (cat_key lower nextValue) (map (cat_key lower) cats1)))).
  { unfold cats1. destruct (existsb (String.eqb nextValue) cats).
    - split; [exact Hn|]. split; [tauto | left; reflexivity].
    - destruct (create_props nextValue cats) as [_ [Hc [Hin Hnd]]].
      split; [exact (Hnd Hn)|].
      destruct Hc as [Hc | Hc]; rewrite Hc.
      + split; [tauto | left; reflexivity].
      + split; [intros k; apply in_keys_snoc|]. right. split; [reflexivity|].
        rewrite <- cat_key_trim. apply key_in_snoc. }
  destruct H1 as [Hn1 [Hsub Hshape]].
  unfold select_category. fold cats1.
  destruct (String.eqb nextValue sel) eqn:Esel.
  - apply String.eqb_eq in Esel. subst sel. cbn [fst snd].
    split; [split; [exact Hn1 | intros Hne; apply Hsub, Hs, Hne]|].
    split; [reflexivity|].
    destruct Hshape as [-> | [-> _]];
      [exists []; rewrite app_nil_r; split; [reflexivity | simpl; lia]
      |exists [trim nextValue]; split; [reflexivity | simpl; lia]].
  - cbn [fst snd].
    destruct (ensure_props nextValue cats1) as [_ [He [Hin Hnd]]].
    split; [split; [exact (Hnd Hn1) | exact Hin]|].
    split; [reflexivity|].
    destruct Hshape as [-> | [-> Hk]].
    + destruct He as [-> | ->];
        [exists []; rewrite app_nil_r; split; [reflexivity | simpl; lia]
        |exists [nextValue]; split; [reflexivity | simpl; lia]].
    + rewrite ensure_cases_eq by (right; exact Hk).
      exists [trim nextValue]; split; [reflexivity | simpl; lia].
Qed.

Lemma only_strings_spec (l : list json) x : In x (only_strings l) <-> In (JStr x) l.
Proof.
  unfold only_strings. rewrite in_flat_map. split.
  - intros [j [Hj Hx]]. destruct j; try contradiction.
    destruct Hx as [-> | []]. exact Hj.
  - intros H. exists (JStr x). split; [exact H | left; reflexivity].
Qed.

Lemma dedup_props seen (l : list string) :
  let r := dedup_by_key lower seen l in
  NoDup (map (cat_key lower) r) /\
  (forall x, In x r -> In x l /\ ~ In (cat_key lower x) seen) /\
  (forall x, In x l -> In (cat_key lower x) seen \/ In (cat_key lower x) (map (cat_key lower) r)).
Proof.
  revert seen. induction l as [|x l IH]; intros seen; cbn zeta.
  - simpl. split; [constructor|]. split; intros y [].
  - simpl. destruct (existsb (String.eqb (cat_key lower x)) seen) eqn:E.
    + destruct (IH seen) as [Hn [Hin Hcov]]. split; [exact Hn|]. split.
      * intros y Hy. destruct (Hin y Hy) as [H1 H2]. split; [right; exact H1 | exact H2].
      * intros y [<- | Hy]; [|exact (Hcov y Hy)].
        left. apply existsb_exists in E as [k [Hk Ek]].
        apply String.eqb_eq in Ek. subst k. exact Hk.
    + destruct (IH (cat_key lower x :: seen)) as [Hn [Hin Hcov]].
      assert (Hx : ~ In (cat_key lower x) seen).
      { intros H. assert (existsb (String.eqb (cat_key lower x)) seen = true)
          by (apply existsb_exists; exists (cat_key lower x);
              split; [exact H | apply String.eqb_refl]).
        congruence. }
      split.
      * simpl. constructor; [|exact Hn].
        intros H. apply list_elem_of_In, in_map_iff in H as [y [Hy1 Hy2]].
        destruct (Hin y Hy2) as [_ Hy3]. apply Hy3. left. symmetry. exact Hy1.
      * split.
        -- intros y [<- | Hy]; [split; [left; reflexivity | exact Hx]|].
           destruct (Hin y Hy) as [H1 H2]. split; [right; exact H1|].
           intros H. apply H2. right. exact H.
        -- intros y [<- | Hy]; [right; left; reflexivity|].
           destruct (Hcov y Hy) as [[H | H] | H].
           ++ right. left. exact H.
           ++ left. exact H.
           ++ right. right. exact H.
Qed.

Lemma dedup_prefix (D S : list string) seen :
  NoDup (map (cat_key lower) D) ->
  (forall x, In x D -> ~ In (cat_key lower x) seen) ->
  exists seen', dedup_by_key lower seen (D ++ S) = D ++ dedup_by_key lower seen' S.
Proof.
  revert seen. induction D as [|x D IH]; intros seen Hn Hd; simpl.
  - exists seen. reflexivity.
  - inversion Hn as [|? ? Hx Hn']; subst.
    assert (E : existsb (String.eqb (cat_key lower x)) seen = false).
    { destruct (existsb (String.eqb (cat_key lower x)) seen) eqn:E; [|reflexivity].
      exfalso. apply (Hd x (or_introl eq_refl)).
      apply existsb_exists in E as [k [Hk Ek]]. apply String.eqb_eq in Ek. subst k. exact Hk. }
    rewrite E.
    destruct (IH (cat_key lower x :: seen) Hn') as [seen' Hs].
    { intros y Hy [H | H].
      - apply Hx. apply list_elem_of_In, in_map_iff. exists y. split; [symmetry; exact H | exact Hy].
      - exact (Hd y (or_intror Hy) H). }
    exists seen'. rewrite Hs. reflexivity.
Qed.

(** X5. Loading a stored array of categories gives a list without
    duplicate keys, made of defaults and of the strings of the array (other
    JSON values are dropped); every default and every stored string has
    its key in the list, and when the defaults have distinct keys they
    come first, in order. *)
Theorem X_load_categories prev (l : list json) :
  let r := load_categories lower prev (Some (TJson (JArr l))) in
  NoDup (map (cat_key lower) r) /\
  (forall x, In x r -> In x DEFAULT_CATEGORIES \/ In (JStr x) l) /\
  (forall x, In x DEFAULT_CATEGORIES \/ In (JStr x) l -> In (cat_key lower x) (map (cat_key lower) r)) /\
  (NoDup (map (cat_key lower) DEFAULT_CATEGORIES) -> exists rest, r = DEFAULT_CATEGORIES ++ rest).
Proof.
  cbv zeta. unfold load_categories.
  destruct (dedup_props [] (DEFAULT_CATEGORIES ++ only_strings l)) as [Hn [Hin Hcov]].
  split; [exact Hn|]. split; [|split].
  - intros x Hx. destruct (Hin x Hx) as [H _]. apply in_app_or in H as [H | H];
      [left; exact H | right; apply only_strings_spec, H].
  - intros x Hx. destruct (Hcov x) as [[] | H]; [|exact H].
    apply in_or_app. destruct Hx as [H | H]; [left; exact H | right; apply only_strings_spec, H].
  - intros HD. destruct (dedup_prefix DEFAULT_CATEGORIES (only_strings l) [] HD)
      as [seen' Hs]; [intros x _ []|].
    exists (dedup_by_key lower seen' (only_strings l)). exact Hs.
Qed.

(** X6. When every option is already trimmed, picking the
    ["Yeni etiket ekle"] item that [shouldShowCreate] displays appends the
    trimmed query to the list and selects it. *)
Theorem X_create_option (query sel : string) (cats : list string) :
  (forall c, In c cats -> trim c = c) ->
  shouldShowCreate lower query cats = true ->
  select_category lower (trim query) (cats, sel) = (cats ++ [trim query], trim query).
Proof.
  intros Htr Hshow. unfold shouldShowCreate in Hshow.
  apply andb_prop in Hshow as [Hne Hno].
  apply Bool.negb_true_iff, String.eqb_neq in Hne.
  apply Bool.negb_true_iff in Hno.
  assert (Hex : existsb (String.eqb (trim query)) cats = false).
  { apply Bool.not_true_iff_false. intros H. apply existsb_exists in H as [c [Hc Ec]].
    apply String.eqb_eq in Ec. subst c.
    assert (existsb (fun o => String.eqb (lower o) (lower (trim query))) cats = true)
      by (apply existsb_exists; exists (trim query); split; [exact Hc | apply String.eqb_refl]).
    congruence. }
  assert (Hk : has_key lower cats (lower (trim query)) = false).
  { apply Bool.not_true_iff_false. unfold has_key. intros H.
    apply existsb_exists in H as [c [Hc Ec]]. apply String.eqb_eq in Ec.
    unfold cat_key in Ec. rewrite (Htr c Hc) in Ec.
    assert (existsb (fun o => String.eqb (lower o) (lower (trim query))) cats = true)
      by (apply existsb_exists; exists c; split; [exact Hc | apply String.eqb_eq, Ec]).
    congruence. }
  unfold select_category. rewrite Hex.
  assert (Hc : handleCreateCategory lower (trim query) cats = cats ++ [trim query]).
  { unfold handleCreateCategory. rewrite trim_idem.
    destruct (String.eqb_spec (trim query) "") as [E|_]; [contradiction|].
    rewrite Hk. reflexivity. }
  rewrite Hc.
  destruct (String.eqb_spec (trim query) sel) as [<-|Hs]; [reflexivity|].
  f_equal. unfold ensure_selected.
  destruct (String.eqb_spec (trim query) "") as [E|_]; [contradiction|].
  replace (has_key lower (cats ++ [trim query]) (cat_key lower (trim query))) with true;
    [reflexivity|].
  symmetry. apply has_key_spec. apply key_in_snoc.
Qed.

End Categories.

Lemma X_handleCreateCategory_witness :
  In (cat_key (fun s => s) " Spor ")
     (map (cat_key (fun s => s)) (handleCreateCategory (fun s => s) " Spor " DEFAULT_CATEGORIES)).
Proof.
  destruct (X_handleCreateCategory (fun s => s) " Spor " DEFAULT_CATEGORIES) as [_ [_ [H _]]].
  apply H. vm_compute. discriminate.
Defined.

Lemma X_ensure_selected_witness :
  NoDup (map (cat_key (fun s => s)) (ensure_selected (fun s => s) "Spor" DEFAULT_CATEGORIES)).
Proof.
  destruct (X_ensure_selected (fun s => s) "Spor" DEFAULT_CATEGORIES) as [_ [_ [_ H]]].
  apply H. refine (bool_decide_unpack _ _). vm_compute. reflexivity.
Defined.

Lemma X_select_category_witness :
  cat_inv (fun s => s) (select_category (fun s => s) " Spor " (DEFAULT_CATEGORIES, "Genel"%string)).
Proof.
  destruct (X_select_category (fun s => s) " Spor " (DEFAULT_CATEGORIES, "Genel"%string))
    as [H _].
  - split; [refine (bool_decide_unpack _ _); vm_compute; reflexivity|].
    intros _. vm_compute. left. reflexivity.
  - exact H.
Defined.

Lemma X_load_categories_witness :
  exists rest, load_categories (fun s => s) [] (Some (TJson (JArr [JStr "Spor"; JNum 3])))
                 = DEFAULT_CATEGORIES ++ rest.
Proof.
  destruct (X_load_categories (fun s => s) [] [JStr "Spor"; JNum 3]) as [_ [_ [_ H]]].
  apply H. refine (bool_decide_unpack _ _). vm_compute. reflexivity.
Defined.

Lemma X_create_option_witness :
  select_category (fun s => s) (trim " Spor ") (DEFAULT_CATEGORIES, "Genel"%string)
    = (DEFAULT_CATEGORIES ++ [trim " Spor "], trim " Spor ").
Proof.
  apply (X_create_option (fun s => s)).
  - intros c Hc. simpl in Hc.
    repeat destruct Hc as [<- | Hc]; [vm_compute; reflexivity ..|contradiction].
  - vm_compute. reflexivity.
Defined.


(* ------------------------------------------------------------------ *)
(** ** Further properties: the statistics views *)

Section FixedZone.

Variable z : Zone.
Hypothesis Hfixed : off_before z = off_after z.

Lemma fixed_offset t : offset z t = off_before z.
Proof. unfold offset. rewrite Hfixed. destruct (t <? transition z); reflexivity. Qed.

Lemma fixed_instant l : instant_of z l = l - off_before z.
Proof.
  unfold instant_of. rewrite <- Hfixed.
  destruct (l - off_before z <? transition z); [reflexivity|].
  destruct (transition z <=? l - off_before z); reflexivity.
Qed.

Lemma fixed_local t : local_of z t = t + off_before z.
Proof. unfold local_of. rewrite fixed_offset. reflexivity. Qed.

Lemma fixed_day_window now k t :
  let start := start_of_day z (add_local_days z now k) in
  ((start <=? t) && (t <? add_local_days z start 1)) =
  (local_of z t / DAY =? local_of z now / DAY + k).
Proof.
  cbv zeta. unfold start_of_day, add_local_days.
  rewrite ?fixed_local, ?fixed_instant, ?fixed_local.
  replace (now + off_before z + k * DAY - off_before z + off_before z)
    with (now + off_before z + k * DAY) by lia.
  rewrite Z.div_add by (unfold DAY; lia).
  set (o := off_before z). set (D := (now + o) / DAY).
  replace ((D + k) * DAY - o + o) with ((D + k) * DAY) by lia.
  pose proof (Z.div_mod (t + o) DAY ltac:(unfold DAY; lia)).
  pose proof (Z.mod_pos_bound (t + o) DAY ltac:(unfold DAY; lia)).
  set (q := (t + o) / DAY) in *. set (r := (t + o) mod DAY) in *.
  unfold DAY in *.
  destruct (q =? D + k) eqn:E.
  - apply Z.eqb_eq in E. apply andb_true_intro. split; [apply Z.leb_le | apply Z.ltb_lt]; nia.
  - apply Z.eqb_neq in E.
    destruct (((D + k) * (24 * 60 * 60 * 1000) - o) <=? t) eqn:E1; [|reflexivity].
    apply Z.leb_le in E1. simpl. apply Z.ltb_ge. nia.
Qed.

End FixedZone.

Lemma foldl_filter_upd (f : gmap string Z -> FocusEvent -> gmap string Z)
    (p : FocusEvent -> bool) (events : list FocusEvent) (m0 : gmap string Z) :
  foldl (fun m ev => if p ev then f m ev else m) m0 events =
  foldl f m0 (List.filter p events).
Proof.
  revert m0. induction events as [|e events IH]; intros m0; simpl; [reflexivity|].
  destruct (p e); simpl; apply IH.
Qed.

Lemma foldl_ext_events {A} (f g : A -> FocusEvent -> A) (events : list FocusEvent) (m0 : A) :
  (forall m e, f m e = g m e) -> foldl f m0 events = foldl g m0 events.
Proof.
  intros H. revert m0. induction events as [|e events IH]; intros m0; simpl; [reflexivity|].
  rewrite H. apply IH.
Qed.

(** X7. In a time zone without offset change, [dailyTotals] for day
    offset [k] is the per-category sum of exactly the events whose local
    calendar day is [k] days from today's. *)
Theorem X_dailyTotals_fixed_zone (z : Zone) (now k : Z) (events : list FocusEvent) :
  off_before z = off_after z ->
  dailyTotals z now k events =
  replay (List.filter (fun e => local_of z (ts e) / DAY =? local_of z now / DAY + k) events).
Proof.
  intros Hf. unfold dailyTotals, replay.
  rewrite <- foldl_filter_upd.
  apply foldl_ext_events. intros m e.
  rewrite (fixed_day_window z Hf now k (ts e)). reflexivity.
Qed.

Section WeekFold.

Variable W : Z.

Lemma week_fold_inv (events : list FocusEvent) (days0 : list DayRow) :
  length days0 = 7%nat -> (forall i r, days0 !! i = Some r -> row_total r = 0) ->
  let res := fold_left
      (fun '(days, totals) ev =>
         if (W <=? ts ev) && (ts ev <? W + 7 * DAY) then
           let idx := Z.to_nat ((ts ev - W) / DAY) in
           match days !! idx with
           | None => (days, totals)
           | Some row =>
               (<[idx := add_to_row (category ev) (minutes ev) row]> days,
                <[category ev := default 0 (totals !! category ev) + minutes ev]> totals)
           end
         else (days, totals))
      events (days0, (∅ : gmap string Z)) in
  length res.1 = 7%nat /\
  (forall i r, res.1 !! i = Some r ->
     exists r0, days0 !! i = Some r0 /\ row_date r = row_date r0 /\
     row_total r = sum_minutes (List.filter (fun e => in_week W e && Nat.eqb (week_idx W e) i) events)) /\
  res.2 = replay (List.filter (in_week W) events).
Proof.
  intros Hlen Hz. cbv zeta.
  induction events as [|e events IH] using rev_ind.
  - simpl. split; [exact Hlen|]. split; [|reflexivity].
    intros i r Hr. exists r. split; [exact Hr|]. split; [reflexivity|]. exact (Hz i r Hr).
  - rewrite fold_left_app. cbn [fold_left].
    destruct (fold_left _ events _) as [days totals] eqn:Efold.
    cbn [fst snd] in IH. destruct IH as [IHlen [IHrow IHtot]].
    assert (Hf : forall i, List.filter (fun e => in_week W e && Nat.eqb (week_idx W e) i) (events ++ [e])
                 = List.filter (fun e => in_week W e && Nat.eqb (week_idx W e) i) events ++
                   (if in_week W e && Nat.eqb (week_idx W e) i then [e] else [])).
    { intros i. rewrite List.filter_app. reflexivity. }
    assert (Hw : List.filter (in_week W) (events ++ [e]) =
                 List.filter (in_week W) events ++ (if in_week W e then [e] else [])).
    { rewrite List.filter_app. reflexivity. }
    unfold in_week at 1. destruct ((W <=? ts e) && (ts e <? W + 7 * DAY)) eqn:Ein.
    + assert (Hin : in_week W e = true) by exact Ein.
      apply andb_prop in Ein as [E1 E2]. apply Z.leb_le in E1. apply Z.ltb_lt in E2.
      assert (Hidx : (Z.to_nat ((ts e - W) / DAY) < 7)%nat).
      { assert ((ts e - W) / DAY < 7) by (apply Z.div_lt_upper_bound; unfold DAY in *; lia).
        assert (0 <= (ts e - W) / DAY) by (apply Z.div_pos; unfold DAY; lia). lia. }
      destruct (days !! Z.to_nat ((ts e - W) / DAY)) as [row|] eqn:Erow.
      2: { apply lookup_ge_None in Erow. lia. }
      cbn [fst snd]. split; [rewrite length_insert; exact IHlen|]. split.
      * intros i r Hr. rewrite Hf, Hin, sum_minutes_app. cbn [andb].
        destruct (decide (i = Z.to_nat ((ts e - W) / DAY))) as [->|Hne].
        -- rewrite list_lookup_insert_eq in Hr by lia. injection Hr as <-.
           destruct (IHrow _ _ Erow) as [r0 [H0 [Hd Ht]]].
           exists r0. split; [exact H0|]. split; [exact Hd|].
           unfold week_idx at 2. rewrite Nat.eqb_refl.
           cbn [add_to_row row_total]. rewrite Ht. unfold sum_minutes at 3. cbn [foldr]. lia.
        -- rewrite list_lookup_insert_ne in Hr by congruence.
           destruct (IHrow _ _ Hr) as [r0 [H0 [Hd Ht]]].
           exists r0. split; [exact H0|]. split; [exact Hd|].
           unfold week_idx at 2.
           assert (Hne' : Nat.eqb (Z.to_nat ((ts e - W) / DAY)) i = false)
             by (apply Nat.eqb_neq; congruence).
           rewrite Hne'. change (if false then [e] else []) with (@nil FocusEvent). rewrite Ht. change (sum_minutes []) with 0. lia.
      * rewrite Hw, Hin, IHtot. unfold replay. rewrite foldl_app. reflexivity.
    + assert (Hin : in_week W e = false) by exact Ein.
      cbn [fst snd]. split; [exact IHlen|]. split.
      * intros i r Hr. destruct (IHrow _ _ Hr) as [r0 [H0 [Hd Ht]]].
        exists r0. split; [exact H0|]. split; [exact Hd|].
        rewrite Hf, Hin. cbn [andb]. rewrite app_nil_r. exact Ht.
      * rewrite Hw, Hin, app_nil_r. exact IHtot.
Qed.

End WeekFold.

Lemma lookup_map_rows {A B} (f : A -> B) (l : list A) i : map f l !! i = option_map f (l !! i).
Proof. revert i. induction l as [|x l IH]; intros [|i]; simpl; try reflexivity. apply IH. Qed.

(** X8. In a time zone without offset change, [weekly] has seven rows;
    row [i] is local midnight of day [i] of the week starting on the
    Monday of [now]'s week, falls on weekday [(i + 1) mod 7] (Monday for
    [i = 0], Sunday for [i = 6]), and totals the minutes of the events of
    that local day; the category totals are the sums over the events of
    those seven days. *)
Theorem X_weekly_fixed_zone (z : Zone) (now : Z) (events : list FocusEvent) :
  off_before z = off_after z ->
  let monday := local_of z now / DAY - (getDay z now + 6) mod 7 in
  let rows := (weekly z now events).1 in
  length rows = 7%nat /\
  (forall i r, rows !! i = Some r ->
     local_of z (row_date r) = (monday + Z.of_nat i) * DAY /\
     getDay z (row_date r) = (Z.of_nat i + 1) mod 7 /\
     row_total r =
       sum_minutes (List.filter (fun e => local_of z (ts e) / DAY =? monday + Z.of_nat i) events)) /\
  (weekly z now events).2 =
    replay (List.filter (fun e => (monday <=? local_of z (ts e) / DAY) &&
                                  (local_of z (ts e) / DAY <? monday + 7)) events).
Proof.
  intros Hf. cbv zeta.
  set (o := off_before z).
  set (monday := local_of z now / DAY - (getDay z now + 6) mod 7).
  assert (HW : start_of_day z (add_local_days z now (- ((getDay z now + 6) mod 7)))
               = monday * DAY - o).
  { unfold start_of_day, add_local_days, monday.
    rewrite ?fixed_local, ?fixed_instant, ?fixed_local by exact Hf. fold o.
    replace (now + o + - ((getDay z now + 6) mod 7) * DAY - o + o)
      with (now + o + - ((getDay z now + 6) mod 7) * DAY) by lia.
    rewrite Z.div_add by (unfold DAY; lia). lia. }
  unfold weekly. rewrite HW.
  set (W := monday * DAY - o).
  set (days0 := map (fun i => mkDayRow (add_local_days z W (Z.of_nat i)) 0 []) (seq 0 7)).
  assert (Hd0 : forall i r, days0 !! i = Some r ->
                 (i < 7)%nat /\ r = mkDayRow (add_local_days z W (Z.of_nat i)) 0 []).
  { intros i r Hr. unfold days0 in Hr. rewrite lookup_map_rows in Hr.
    destruct (seq 0 7 !! i) as [j|] eqn:Ej; [|discriminate].
    injection Hr as <-. apply lookup_seq in Ej as [-> Hj]. split; [lia | reflexivity]. }
  assert (Hlen0 : length days0 = 7%nat) by reflexivity.
  assert (Hz0 : forall i r, days0 !! i = Some r -> row_total r = 0).
  { intros i r Hr. apply Hd0 in Hr as [_ ->]. reflexivity. }
  destruct (week_fold_inv W events days0 Hlen0 Hz0) as [Hlen [Hrow Htot]].
  (* events in the window, by local day *)
  assert (Hwin : forall e, in_week W e =
            (monday <=? local_of z (ts e) / DAY) && (local_of z (ts e) / DAY <? monday + 7)).
  { intros e. unfold in_week, W. rewrite fixed_local by exact Hf. fold o.
    pose proof (Z.div_mod (ts e + o) DAY ltac:(unfold DAY; lia)).
    pose proof (Z.mod_pos_bound (ts e + o) DAY ltac:(unfold DAY; lia)).
    set (q := (ts e + o) / DAY) in *. set (r := (ts e + o) mod DAY) in *.
    unfold DAY in *.
    destruct (monday <=? q) eqn:E1, (q <? monday + 7) eqn:E2;
      [apply Z.leb_le in E1; apply Z.ltb_lt in E2
      |apply Z.leb_le in E1; apply Z.ltb_ge in E2
      |apply Z.leb_gt in E1; apply Z.ltb_lt in E2
      |apply Z.leb_gt in E1; apply Z.ltb_ge in E2]; cbn [andb].
    - apply andb_true_intro. split; [apply Z.leb_le | apply Z.ltb_lt]; nia.
    - destruct (_ <=? ts e) eqn:E3; [|reflexivity]. cbn [andb]. apply Z.ltb_ge. nia.
    - destruct (_ <=? ts e) eqn:E3; [|reflexivity]. apply Z.leb_le in E3. nia.
    - destruct (_ <=? ts e) eqn:E3; [|reflexivity]. apply Z.leb_le in E3. nia. }
  assert (Hidx : forall e i, (i < 7)%nat ->
            in_week W e && Nat.eqb (week_idx W e) i =
            (local_of z (ts e) / DAY =? monday + Z.of_nat i)).
  { intros e i Hi. rewrite Hwin. unfold week_idx, W. rewrite fixed_local by exact Hf. fold o.
    replace (ts e - (monday * DAY - o)) with (ts e + o + (- monday) * DAY) by lia.
    rewrite Z.div_add by (unfold DAY; lia).
    set (q := (ts e + o) / DAY).
    destruct (monday <=? q) eqn:E1, (q <? monday + 7) eqn:E2, (q =? monday + Z.of_nat i) eqn:E3;
      cbn [andb]; try reflexivity;
      repeat match goal with
      | H : (_ <=? _) = true |- _ => apply Z.leb_le in H
      | H : (_ <=? _) = false |- _ => apply Z.leb_gt in H
      | H : (_ <? _) = true |- _ => apply Z.ltb_lt in H
      | H : (_ <? _) = false |- _ => apply Z.ltb_ge in H
      | H : (_ =? _) = true |- _ => apply Z.eqb_eq in H
      | H : (_ =? _) = false |- _ => apply Z.eqb_neq in H
      end; try lia.
    - apply Nat.eqb_eq. lia.
    - apply Nat.eqb_neq. lia. }
  cbv zeta in Hlen, Hrow, Htot.
  set (res := fold_left _ events (days0, ∅)) in *. clearbody res.
  destruct res as [days' totals]. cbn [fst snd] in Hlen, Hrow, Htot.
  split; [|split].
  - cbn [fst]. rewrite length_map. exact Hlen.
  - intros i r Hr. cbn [fst] in Hr. rewrite lookup_map_rows in Hr.
    destruct (_ !! i) as [r1|] eqn:E1 in Hr; [|discriminate]. injection Hr as <-.
    destruct (Hrow i r1 E1) as [r0 [H0 [Hdate Htotal]]].
    destruct (Hd0 i r0 H0) as [Hi ->]. cbn [row_date row_total].
    rewrite Hdate. cbn [row_date].
    assert (Hloc : local_of z (add_local_days z W (Z.of_nat i)) = (monday + Z.of_nat i) * DAY).
    { unfold add_local_days, W. rewrite ?fixed_local, ?fixed_instant, ?fixed_local by exact Hf.
      fold o. lia. }
    split; [exact Hloc|]. split.
    + unfold getDay. rewrite Hloc. rewrite Z.div_mul by (unfold DAY; lia).
      unfold monday, getDay. set (D := local_of z now / DAY).
      pose proof (Z.div_mod (D + 4) 7 ltac:(lia)).
      pose proof (Z.mod_pos_bound (D + 4) 7 ltac:(lia)).
      set (a := (D + 4) mod 7) in *. set (q := (D + 4) / 7) in *.
      pose proof (Z.div_mod (a + 6) 7 ltac:(lia)).
      pose proof (Z.mod_pos_bound (a + 6) 7 ltac:(lia)).
      set (b := (a + 6) mod 7) in *. set (t := (a + 6) / 7) in *.
      assert (Hab : a - b = 1 \/ a - b = -6) by lia.
      destruct Hab as [Hab | Hab].
      * replace (D - b + Z.of_nat i + 4) with (Z.of_nat i + 1 + q * 7) by lia.
        apply Z_mod_plus_full.
      * replace (D - b + Z.of_nat i + 4) with (Z.of_nat i + 1 + (q - 1) * 7) by lia.
        apply Z_mod_plus_full.
    + rewrite Htotal. f_equal. apply List.filter_ext. intros e. apply Hidx, Hi.
  - cbn [snd]. rewrite Htot. f_equal. apply List.filter_ext. exact Hwin.
Qed.

Section Breakdown.

Lemma add_breakdown_sum label m b : bd_sum (add_breakdown label m b) = bd_sum b + m.
Proof.
  induction b as [|[l v] r IH]; cbn [add_breakdown]; [unfold bd_sum; simpl; lia|].
  destruct (String.eqb l label); unfold bd_sum in *; simpl in *; lia.
Qed.

Lemma add_breakdown_keys label m b k :
  In k (map fst (add_breakdown label m b)) <-> In k (map fst b) \/ k = label.
Proof.
  induction b as [|[l v] r IH]; cbn [add_breakdown]; [simpl; intuition congruence|].
  destruct (String.eqb_spec l label) as [->|Hne]; simpl.
  - split; [tauto|]. intros [H| ->]; [exact H | left; reflexivity].
  - rewrite IH. intuition congruence.
Qed.

Lemma add_breakdown_nodup label m b :
  NoDup (map fst b) -> NoDup (map fst (add_breakdown label m b)).
Proof.
  induction b as [|[l v] r IH]; intros Hnd; cbn [add_breakdown].
  - apply NoDup_singleton.
  - apply NoDup_cons in Hnd as [Hl Hr]. cbn [map fst] in Hl.
    destruct (String.eqb_spec l label) as [->|Hne]; cbn [map fst].
    + apply NoDup_cons; split; assumption.
    + apply NoDup_cons; split; [|apply IH, Hr].
      rewrite list_elem_of_In, add_breakdown_keys. rewrite list_elem_of_In in Hl.
      intros [H|H]; [exact (Hl H)|congruence].
Qed.

Lemma insert_desc_perm x l : insert_desc x l ≡ₚ x :: l.
Proof.
  induction l as [|y r IH]; cbn [insert_desc]; [reflexivity|].
  destruct (y.2 <? x.2); [reflexivity|]. rewrite IH. constructor.
Qed.

Lemma sort_desc_perm_acc (l acc : list (string * Z)) :
  fold_left (fun acc x => insert_desc x acc) l acc ≡ₚ l ++ acc.
Proof.
  revert acc. induction l as [|x l IH]; intros acc; [reflexivity|].
  cbn [fold_left]. rewrite IH, insert_desc_perm. symmetry. apply Permutation_middle.
Qed.

Lemma sort_desc_perm l : sort_desc l ≡ₚ l.
Proof. unfold sort_desc. rewrite sort_desc_perm_acc. rewrite app_nil_r. reflexivity. Qed.

Lemma insert_desc_sorted x l : Sorted (fun a b : string * Z => b.2 <= a.2) l -> Sorted (fun a b : string * Z => b.2 <= a.2) (insert_desc x l).
Proof.
  induction l as [|y r IH]; intros Hs; cbn [insert_desc]; [repeat constructor|].
  destruct (y.2 <? x.2) eqn:E.
  - apply Z.ltb_lt in E. constructor; [exact Hs|]. constructor. lia.
  - apply Z.ltb_ge in E. apply Sorted_inv in Hs as [Hr Hh].
    constructor; [apply IH, Hr|].
    destruct r as [|w r]; cbn [insert_desc]; [constructor;  lia|].
    destruct (w.2 <? x.2); constructor; [lia|].
    inversion Hh; assumption.
Qed.

Lemma sort_desc_sorted l : Sorted (fun a b : string * Z => b.2 <= a.2) (sort_desc l).
Proof.
  unfold sort_desc. assert (H : Sorted (fun a b : string * Z => b.2 <= a.2) (@nil (string * Z))) by constructor.
  revert H. generalize (@nil (string * Z)). induction l as [|x l IH]; intros acc H; [exact H|].
  cbn [fold_left]. apply IH, insert_desc_sorted, H.
Qed.

Lemma bd_sum_perm b b' : b ≡ₚ b' -> bd_sum b = bd_sum b'.
Proof. intros H. unfold bd_sum. induction H; simpl; lia. Qed.

Lemma week_rows_ok (startMs endMs : Z) (events : list FocusEvent) acc :
  Forall row_ok acc.1 ->
  Forall row_ok (fold_left
      (fun '(days, totals) ev =>
         if (startMs <=? ts ev) && (ts ev <? endMs) then
           let idx := Z.to_nat ((ts ev - startMs) / DAY) in
           match days !! idx with
           | None => (days, totals)
           | Some row =>
               (<[idx := add_to_row (category ev) (minutes ev) row]> days,
                <[category ev := default 0 (totals !! category ev) + minutes ev]> (totals : gmap string Z))
           end
         else (days, totals))
      events acc).1.
Proof.
  revert acc. induction events as [|e events IH]; intros [days totals] H; [exact H|].
  cbn [fold_left]. apply IH.
  destruct (_ && _); [|exact H]. cbv zeta.
  destruct (days !! _) as [row|] eqn:Er; [|exact H]. cbn [fst].
  apply Forall_insert; [exact H|].
  rewrite Forall_lookup in H. destruct (H _ _ Er) as [Hn Hs].
  split; cbn [add_to_row row_breakdown row_total].
  - apply add_breakdown_nodup, Hn.
  - rewrite add_breakdown_sum, Hs. reflexivity.
Qed.

End Breakdown.

(** X9. In every row of [weekly], in any time zone, the breakdown lists
    each category once, is sorted by decreasing minutes, and its minutes
    add up to the row's total. *)
Theorem X_weekly_breakdown (z : Zone) (now : Z) (events : list FocusEvent) (r : DayRow) :
  In r (weekly z now events).1 ->
  NoDup (map fst (row_breakdown r)) /\
  Sorted (fun a b => b.2 <= a.2) (row_breakdown r) /\
  fold_right Z.add 0 (map snd (row_breakdown r)) = row_total r.
Proof.
  unfold weekly. cbv zeta.
  set (res := fold_left _ events _).
  assert (HF : Forall row_ok res.1).
  { unfold res. apply week_rows_ok. cbn [fst]. apply Forall_forall.
    intros r0 Hr0. apply list_elem_of_In, in_map_iff in Hr0 as [i [<- _]]. split; [constructor | reflexivity]. }
  clearbody res. destruct res as [days' totals]. cbn [fst] in HF |- *.
  intros Hr. apply in_map_iff in Hr as [r0 [<- Hr0]].
  rewrite Forall_forall in HF. destruct (HF r0 (proj2 (list_elem_of_In _ _) Hr0)) as [Hn Hs].
  cbn [row_breakdown row_total]. split; [|split].
  - rewrite sort_desc_perm. exact Hn.
  - apply sort_desc_sorted.
  - change (bd_sum (sort_desc (row_breakdown r0)) = row_total r0).
    rewrite (bd_sum_perm _ _ (sort_desc_perm _)). exact Hs.
Qed.


Lemma X_dailyTotals_fixed_zone_witness :
  dailyTotals (mkZone 0 7200000 7200000) 1760900000000 (-1)
    [mkFocusEvent 1760800000000 "Genel" 25; mkFocusEvent 1760890000000 "Okuma" 50] =
  replay (List.filter (fun e => local_of (mkZone 0 7200000 7200000) (ts e) / DAY =?
                                local_of (mkZone 0 7200000 7200000) 1760900000000 / DAY + -1)
    [mkFocusEvent 1760800000000 "Genel" 25; mkFocusEvent 1760890000000 "Okuma" 50]).
Proof. apply X_dailyTotals_fixed_zone. reflexivity. Defined.

Lemma X_weekly_fixed_zone_witness :
  length (weekly (mkZone 0 7200000 7200000) 1760900000000
            [mkFocusEvent 1760890000000 "Okuma" 50]).1 = 7%nat.
Proof.
  pose proof (X_weekly_fixed_zone (mkZone 0 7200000 7200000) 1760900000000
                [mkFocusEvent 1760890000000 "Okuma" 50] ltac:(reflexivity)) as H.
  cbv zeta in H. destruct H as [H _]. exact H.
Defined.

Lemma X_weekly_breakdown_witness :
  let rows := (weekly (mkZone 0 7200000 7200000) 1760900000000
                 [mkFocusEvent 1760890000000 "Genel" 25;
                  mkFocusEvent 1760891000000 "Okuma" 50;
                  mkFocusEvent 1760892000000 "Genel" 10]).1 in
  let r := nth 6 rows (mkDayRow 0 0 []) in
  row_breakdown r = [("Okuma"%string, 50); ("Genel"%string, 35)] /\
  NoDup (map fst (row_breakdown r)) /\
  Sorted (fun a b => b.2 <= a.2) (row_breakdown r) /\
  fold_right Z.add 0 (map snd (row_breakdown r)) = row_total r.
Proof.
  cbv zeta. split; [vm_compute; reflexivity|].
  eapply X_weekly_breakdown. apply nth_In, Nat.ltb_lt. vm_compute. reflexivity.
Defined.

(* ------------------------------------------------------------------ *)
(** ** Further properties: day navigation *)

(** X10. Starting from today ([dayOffset = 0]) or any past day, no
    sequence of the previous-day and next-day buttons reaches a future
    day; one step back followed by one step forward returns to the same
    day. *)
Theorem X_day_nav (bs : list DayNav) (d : Z) :
  d <= 0 -> day_navs bs d <= 0 /\ day_nav NextDay (day_nav PrevDay d) = d.
Proof.
  intros Hd. split.
  - revert d Hd. induction bs as [|b bs IH]; intros d Hd; [exact Hd|].
    apply IH. destruct b; cbn [day_nav]; [lia|].
    destruct (0 <=? d); lia.
  - cbn [day_nav]. destruct (0 <=? d - 1) eqn:E; [apply Z.leb_le in E; lia|]. lia.
Qed.

Lemma X_day_nav_witness : day_navs [NextDay; PrevDay; NextDay; NextDay; NextDay] (-3) <= 0 /\
  day_nav NextDay (day_nav PrevDay (-3)) = -3.
Proof. apply X_day_nav. lia. Defined.

(* ------------------------------------------------------------------ *)
(** ** Further properties: the session engine *)

(** Reduces the setters of [Home] and its projections call by value, so
    that a nested setter never copies its argument into every field. *)
Ltac home_red :=
  cbv beta iota zeta delta [sync_remaining onFinish set_running set_remaining set_mode
       set_durations durations mode isRunning remainingSeconds completedFocusCount
       totalMinutes selectedCategory categoryMinutesStore focusEventsStore interval
       c_mode c_durations c_completedFocusCount c_selectedCategory
       nextMode Bool.eqb negb mode_eqb orb dur is_focus].

Section EngineOps.

Lemma dur_bounds d m : durations_in_range d -> 1 <= dur d m <= 180.
Proof. unfold durations_in_range, in_range. destruct m; simpl; lia. Qed.

Lemma tick_inv now s :
  Inv s ->
  Inv (tick now s) /\
  completedFocusCount s <= completedFocusCount (tick now s) /\
  totalMinutes s <= totalMinutes (tick now s).
Proof.
  destruct s as [d m r rs cnt tm sel cm ev iv]; unfold Inv; cbn [durations mode
    remainingSeconds interval isRunning completedFocusCount totalMinutes].
  intros [Hd [Hr Hi]].
  pose proof (dur_bounds d Short Hd). pose proof (dur_bounds d Long Hd).
  pose proof (dur_bounds d Focus Hd).
  unfold tick; cbn [interval remainingSeconds].
  destruct iv as [[cmo cd cc csel]|]; cbn [c_mode c_durations] in *.
  2: { subst r. destruct m; cbn [dur] in Hr; home_red; unfold durations_in_range, in_range in *; repeat split; auto; lia. }
  destruct Hi as [-> [-> Hcd]].
  destruct (rs <=? 1) eqn:E.
  - pose proof (dur_bounds cd Focus Hcd).
    unfold tick_updater. rewrite E.
    destruct m; home_red; [destruct (Z.rem (cc + 1) 4 =? 0) | |];
    try (destruct (record_completion _ _ _ _ _) as [cm' ev']); home_red;
    unfold durations_in_range, in_range in *; repeat split; auto; lia.
  - apply Z.leb_gt in E. unfold tick_updater.
    assert (E' : (rs <=? 1) = false) by (apply Z.leb_gt; lia). rewrite E'.
    destruct m; cbn [dur] in Hr; home_red; unfold durations_in_range, in_range in *;
      repeat split; auto; lia.
Qed.

Lemma step_inv o s :
  Inv s ->
  Inv (step o s) /\
  completedFocusCount s <= completedFocusCount (step o s) /\
  totalMinutes s <= totalMinutes (step o s).
Proof.
  intros HI. destruct o as [now| | | |f v]; [apply tick_inv, HI|..];
    destruct s as [d m r rs cnt tm sel cm ev iv]; unfold Inv in *;
    cbn [durations mode remainingSeconds interval isRunning] in HI;
    destruct HI as [Hd [Hr Hi]];
    pose proof (dur_bounds d Short Hd); pose proof (dur_bounds d Long Hd);
    pose proof (dur_bounds d Focus Hd); cbn [step].
  - unfold handleStartPause.
    destruct r, iv as [c|], m; cbn [dur] in Hr; home_red;
      unfold durations_in_range, in_range in *;
      try (match type of Hi with _ /\ _ => destruct Hi as [Hx [Hy Hz]] end); try discriminate;
      repeat split; auto; lia.
  - unfold handleReset. destruct r, m; cbn [dur] in Hr; home_red;
      unfold durations_in_range, in_range in *; repeat split; auto; lia.
  - unfold handleSkip. destruct r, m, iv as [c|]; home_red;
      try destruct (Z.rem (cnt + 1) 4 =? 0); home_red;
      unfold durations_in_range, in_range in *;
      try (match type of Hi with _ /\ _ => destruct Hi as [Hx [Hy Hz]] end); try discriminate;
      repeat split; auto; lia.
  - unfold handleDurationInput, setDurations.
    pose proof (clamp_input_in_range v).
    destruct f, m; home_red; unfold edit_durations;
      cbn [focus short long]; unfold durations_in_range, in_range in *;
      cbn [focus short long] in *; repeat split; auto; lia.
Qed.

End EngineOps.

Lemma run_ops_inv (os : list Op) (s : Home) :
  Inv s ->
  Inv (run_ops os s) /\
  completedFocusCount s <= completedFocusCount (run_ops os s) /\
  totalMinutes s <= totalMinutes (run_ops os s).
Proof.
  revert s. induction os as [|o os IH]; intros s HI; [cbn; split; [exact HI | lia]|].
  cbn [run_ops fold_left]. fold (run_ops os (step o s)).
  destruct (step_inv o s HI) as [HI' [Hc Ht]].
  destruct (IH _ HI') as [H1 [H2 H3]]. split; [exact H1 | lia].
Qed.

(** X11. From a state with in-range durations, a countdown within the
    current phase and an interval exactly while running, every sequence
    of timer firings, start/pause, reset, skip and settings edits keeps
    these properties (the countdown never goes negative nor above the
    phase length), and never decreases the focus count nor
    [totalMinutes]. *)
Theorem X_run_ops_invariant (os : list Op) (s : Home) :
  Inv s ->
  Inv (run_ops os s) /\
  completedFocusCount s <= completedFocusCount (run_ops os s) /\
  totalMinutes s <= totalMinutes (run_ops os s).
Proof. apply run_ops_inv. Qed.

Lemma X_run_ops_invariant_witness :
  Inv (run_ops [OpStartPause; OpTick 0; OpSkip; OpDuration FieldShort (Some 300)]
         (mkHome DEFAULT_DURATIONS Focus false 1500 0 0 "Genel" SAbsent SAbsent None)).
Proof.
  apply (X_run_ops_invariant _ (mkHome DEFAULT_DURATIONS Focus false 1500 0 0 "Genel"
                                   SAbsent SAbsent None)).
  unfold Inv, durations_in_range, in_range. simpl. lia.
Defined.
